(** * verboselib: the gettext tool invocation pipeline

    A shallow embedding of [verboselib/cli/gettext_tools.py] together with
    the properties its specification states about it: the argument lists
    built for [xgettext], [msguniq], [msgmerge], [msgattrib] and [msgfmt],
    the classification of a finished tool run, the availability check of
    the tool chain and the stripping of the catalog header. *)

From Stdlib Require Import List String Ascii ZArith NArith Bool Lia.
From Stdlib Require Import Numbers.DecimalString.
From Stdlib Require Import Sorting.Permutation Sorting.Sorted.
Import ListNotations.

Set Implicit Arguments.

(* ================================================================== *)
(** ** Python values used by the module *)

Module Py.

(** A Python [str] is a sequence of Unicode code points. *)
Definition str : Type := list N.

(** An ASCII literal of the source, as a [str]. *)
Definition lit (s : string) : str :=
  map N_of_ascii (list_ascii_of_string s).

Definition LF : N := 10%N.
Definition CR : N := 13%N.

(** Truth value of a [str] and of an [int] ([if errors:], [if content:],
    the predicate [len] given to [dropwhile]). *)
Definition len (s : str) : Z := Z.of_nat (List.length s).
Definition truthy_int (n : Z) : bool := negb (n =? 0)%Z.
Definition truthy (s : str) : bool :=
  match s with
  | [] => false
  | _ :: _ => true
  end.
Definition truthy_list (A : Type) (l : list A) : bool :=
  match l with
  | [] => false
  | _ :: _ => true
  end.

(** [str(n)] for an [int], as an f-string renders it. *)
Definition str_of_int (n : Z) : str :=
  lit (NilZero.string_of_int (Z.to_int n)).

(** The line boundaries of [str.splitlines]: LF, VT, FF, CR, FS, GS, RS,
    NEL, LINE SEPARATOR and PARAGRAPH SEPARATOR. *)
Definition is_linebreak (c : N) : bool :=
  (  (c =? 10) || (c =? 11) || (c =? 12) || (c =? 13)
  || (c =? 28) || (c =? 29) || (c =? 30) || (c =? 133)
  || (c =? 8232) || (c =? 8233))%N.

(** [str.splitlines()] with [keepends=False].  [cur] is the line being
    read, most recent character first.  A CR directly followed by LF is one
    boundary; text after the last boundary is a line only when it is not
    empty. *)
Fixpoint splitlines_from (cur : str) (s : str) : list str :=
  match s with
  | [] =>
      match cur with
      | [] => []
      | _ :: _ => [rev cur]
      end
  | c :: rest =>
      if is_linebreak c then
        if (c =? CR)%N then
          match rest with
          | c' :: rest' =>
              if (c' =? LF)%N then rev cur :: splitlines_from [] rest'
              else rev cur :: splitlines_from [] rest
          | [] => rev cur :: splitlines_from [] rest
          end
        else rev cur :: splitlines_from [] rest
      else splitlines_from (c :: cur) rest
  end.

Definition splitlines (s : str) : list str := splitlines_from [] s.

(** [sep.join(parts)]. *)
Fixpoint join (sep : str) (parts : list str) : str :=
  match parts with
  | [] => []
  | p :: ps =>
      match ps with
      | [] => p
      | _ :: _ => p ++ sep ++ join sep ps
      end
  end.

(** [itertools.dropwhile(pred, it)], consumed to the end. *)
Fixpoint dropwhile (A : Type) (pred : A -> bool) (it : list A) : list A :=
  match it with
  | [] => []
  | x :: xs => if pred x then dropwhile pred xs else x :: xs
  end.

End Py.

Import Py.

Local Open Scope string_scope.
Local Open Scope list_scope.

(* ================================================================== *)
(** ** Effects: exceptions and the warning sink *)

Module Eff.

(** The exceptions the module raises.  [LaunchError] stands for whatever
    [popen_wrapper] raises when the process cannot be started. *)
Inductive exn : Type :=
| OSError (msg : str)
| RuntimeError (msg : str)
| IndexError
| LaunchError (msg : str).

(** A computation ends in an exception or a value, and has sent a list of
    messages to [print_err], oldest first. *)
Record M (A : Type) : Type := mkM {
  outcome : exn + A;
  printed : list str
}.

Definition ret (A : Type) (x : A) : M A := mkM (inr x) [].
Definition raise (A : Type) (e : exn) : M A := mkM (inl e) [].
Definition print_err (s : str) : M unit := mkM (inr tt) [s].
Definition lift (A : Type) (r : exn + A) : M A := mkM r [].

Definition bind (A B : Type) (m : M A) (k : A -> M B) : M B :=
  match outcome m with
  | inl e => mkM (inl e) (printed m)
  | inr x => let r := k x in mkM (outcome r) (printed m ++ printed r)
  end.

(** [args[i]] on a list. *)
Definition getitem (A : Type) (l : list A) (i : nat) : M A :=
  match nth_error l i with
  | Some x => ret x
  | None => raise A IndexError
  end.

Definition raises (A : Type) (m : M A) : Prop :=
  exists e, outcome m = inl e.

End Eff.

Import Eff.

Notation "x <- m ;; k" := (bind m (fun x => k))
  (at level 61, m at next level, right associativity).
Notation "m ;;; k" := (bind m (fun _ => k))
  (at level 61, right associativity).

(* ================================================================== *)
(** ** [verboselib/cli/gettext_tools.py] *)

Module GettextTools.

Definition GETTEXT_TOOLS_STATUS_OK : Z := 0%Z.

Definition GETTEXT_TOOLS_EXECUTABLES : list str :=
  [ lit "xgettext";
    lit "msguniq";
    lit "msgmerge";
    lit "msgattrib";
    lit "msgfmt" ].

(** [list.append] and [list.extend]; [args] is rebound at each statement. *)
Definition append (args : list str) (x : str) : list str := args ++ [x].
Definition extend (args : list str) (xs : list str) : list str := args ++ xs.

(** [strip_translations_header]: the lines of the text, without the
    leading lines on which [len] is true, joined by LF. *)
Definition strip_translations_header (translations : str) : str :=
  join [LF] (dropwhile (fun l => truthy_int (len l)) (splitlines translations)).

Section Collaborators.

(** The helpers imported from [.text] and [.utils], and [pathlib.Path]. *)
Variable Path : Type.
Variable stringify_path : Path -> str.
Variable normalize_eols : str -> str.
Variable find_executable : str -> option str.
Variable popen_wrapper : list str -> exn + (str * str * Z).

Definition missing_executable_message (executable_name : str) : str :=
  lit "cannot find executable '" ++ executable_name
  ++ lit "': make sure you have GNU gettext tools 0.15 or newer installed".

(** The [for] loop of [validate_gettext_tools_exist]. *)
Fixpoint validate_each (names : list str) : M unit :=
  match names with
  | [] => ret tt
  | executable_name :: rest =>
      match find_executable executable_name with
      | None => raise unit (OSError (missing_executable_message executable_name))
      | Some _ => validate_each rest
      end
  end.

Definition validate_gettext_tools_exist : M unit :=
  validate_each GETTEXT_TOOLS_EXECUTABLES.

Definition tool_failure_message (tool_name : str) (status : Z) (errors : str)
  : str :=
  lit "failed to run gettext tool '" ++ tool_name ++ lit "' (status="
  ++ str_of_int status ++ lit "): " ++ errors.

Definition get_gettext_tool_output (args : list str) : M str :=
  r <- lift (popen_wrapper args) ;;
  let '(content, errors, status) := r in
  (if truthy errors then
     if negb (status =? GETTEXT_TOOLS_STATUS_OK)%Z then
       tool_name <- getitem args 0 ;;
       raise unit (RuntimeError (tool_failure_message tool_name status errors))
     else
       print_err errors
   else ret tt) ;;;
  let content := if truthy content then normalize_eols content else content in
  ret content.

Definition _make_xgettext_args (source_file_path : Path) (domain : str)
    (keywords : list str) (no_wrap no_location : bool)
    (extra_args : list str) : list str :=
  let args :=
    [ lit "xgettext";
      lit "-d"; domain;
      lit "--from-code=UTF-8";
      lit "--add-comments=Translators";
      lit "--output=-" ] in
  let args := extend args (map (fun x => lit "--keyword=" ++ x) keywords) in
  let args := if no_wrap then append args (lit "--no-wrap") else args in
  let args := if no_location then append args (lit "--no-location") else args in
  let args := if truthy_list extra_args then extend args extra_args else args in
  let args := append args (stringify_path source_file_path) in
  args.

Definition extract_translations (source_file_path : Path) (domain : str)
    (keywords : list str) (no_wrap no_location : bool)
    (xgettext_extra_args : list str) : M str :=
  let args := _make_xgettext_args source_file_path domain keywords
                no_wrap no_location xgettext_extra_args in
  get_gettext_tool_output args.

Definition _make_msguniq_args (pot_file_path : Path)
    (no_wrap no_location : bool) (extra_args : list str) : list str :=
  let args := [ lit "msguniq"; lit "--to-code=utf-8" ] in
  let args := if no_wrap then append args (lit "--no-wrap") else args in
  let args := if no_location then append args (lit "--no-location") else args in
  let args := if truthy_list extra_args then extend args extra_args else args in
  let args := append args (stringify_path pot_file_path) in
  args.

Definition extract_unique_messages (pot_file_path : Path)
    (no_wrap no_location : bool) (msguniq_extra_args : list str) : M str :=
  let args := _make_msguniq_args pot_file_path no_wrap no_location
                msguniq_extra_args in
  get_gettext_tool_output args.

Definition _make_msgmerge_args (po_file_path pot_file_path : Path)
    (no_wrap no_location : bool) (extra_args : list str) : list str :=
  let args := [ lit "msgmerge"; lit "-q"; lit "--previous" ] in
  let args := if no_wrap then append args (lit "--no-wrap") else args in
  let args := if no_location then append args (lit "--no-location") else args in
  let args := if truthy_list extra_args then extend args extra_args else args in
  let args := append args (stringify_path po_file_path) in
  let args := append args (stringify_path pot_file_path) in
  args.

Definition merge_new_and_existing_translations (po_file_path pot_file_path : Path)
    (no_wrap no_location : bool) (msgmerge_extra_args : list str) : M str :=
  let args := _make_msgmerge_args po_file_path pot_file_path no_wrap
                no_location msgmerge_extra_args in
  get_gettext_tool_output args.

Definition _make_msgattrib_args (po_file_path : Path)
    (no_wrap no_location : bool) (extra_args : list str) : list str :=
  let args := [ lit "msgattrib"; lit "--no-obsolete" ] in
  let args := if no_wrap then append args (lit "--no-wrap") else args in
  let args := if no_location then append args (lit "--no-location") else args in
  let args := if truthy_list extra_args then extend args extra_args else args in
  let po_file_path_str := stringify_path po_file_path in
  let args := extend args [ lit "-o"; po_file_path_str; po_file_path_str ] in
  args.

Definition remove_obsolete_translations (po_file_path : Path)
    (no_wrap no_location : bool) (msgattrib_extra_args : list str) : M unit :=
  let args := _make_msgattrib_args po_file_path no_wrap no_location
                msgattrib_extra_args in
  get_gettext_tool_output args ;;; ret tt.

Definition _make_msgfmt_args (mo_file_path po_file_path : Path)
    (fuzzy : bool) (extra_args : list str) : list str :=
  let args := [ lit "msgfmt"; lit "--check-format" ] in
  let args := if fuzzy then append args (lit "-f") else args in
  let args := if truthy_list extra_args then extend args extra_args else args in
  let args :=
    extend args
      [ lit "-o"; stringify_path mo_file_path; stringify_path po_file_path ] in
  args.

Definition compile_translations (mo_file_path po_file_path : Path)
    (fuzzy : bool) (msgfmt_extra_args : list str) : M unit :=
  let args := _make_msgfmt_args mo_file_path po_file_path fuzzy
                msgfmt_extra_args in
  get_gettext_tool_output args ;;; ret tt.

End Collaborators.

End GettextTools.

(* ================================================================== *)
(** ** Inputs and predicates used in the statements *)

Module Inputs.

Import GettextTools.

Definition DQUOTE : N := 34%N.

(** The text [#comment1 LF #comment2 LF LF msgid "a" LF msgstr "" LF]. *)
Definition catalog_with_header : str :=
  lit "#comment1" ++ [LF] ++ lit "#comment2" ++ [LF] ++ [LF]
  ++ lit "msgid " ++ [DQUOTE] ++ lit "a" ++ [DQUOTE] ++ [LF]
  ++ lit "msgstr " ++ [DQUOTE; DQUOTE] ++ [LF].

(** The text [msgid "a" LF msgstr "" LF]. *)
Definition catalog_body : str :=
  lit "msgid " ++ [DQUOTE] ++ lit "a" ++ [DQUOTE] ++ [LF]
  ++ lit "msgstr " ++ [DQUOTE; DQUOTE] ++ [LF].

(** The text [LF msgid "a" LF msgstr ""]: the separating blank line is kept
    and the last line has no terminator. *)
Definition catalog_body_after_blank : str :=
  [LF] ++ lit "msgid " ++ [DQUOTE] ++ lit "a" ++ [DQUOTE] ++ [LF]
  ++ lit "msgstr " ++ [DQUOTE; DQUOTE].

(** The first line of the text is not a non-empty line: the text has no
    line at all, or its first line is empty. *)
Definition no_leading_block (s : str) : bool :=
  match splitlines s with
  | [] => true
  | l :: _ => negb (truthy_int (len l))
  end.

(** The character is not a line boundary. *)
Definition not_break (c : N) : Prop := is_linebreak c = false.

(** LF is the only line boundary that occurs in the text. *)
Definition only_LF_breaks (s : str) : Prop :=
  forall c, In c s -> is_linebreak c = true -> c = LF.

(** The text does not end with LF. *)
Definition unterminated (s : str) : Prop := last s 0%N <> LF.

(** A text that starts with a blank line and ends with a terminator. *)
Definition blank_then_line : str := [LF] ++ lit "abc" ++ [LF].

(** The tokens an optional flag contributes to an argument list. *)
Definition flag_if (b : bool) (token : str) : list str :=
  if b then [token] else [].

(** A text whose only line boundary is a CR LF pair. *)
Definition blank_then_crlf : str := [CR; LF] ++ lit "abc".

(** A [find_executable] under which exactly the names of [present] resolve. *)
Definition find_among (present : list str) (name : str) : option str :=
  if in_dec (list_eq_dec N.eq_dec) name present
  then Some (lit "/usr/bin/" ++ name)
  else None.

(** A [popen_wrapper] that gives the same result for every command. *)
Definition popen_const (content errors : str) (status : Z)
    (args : list str) : exn + (str * str * Z) :=
  inr (content, errors, status).

(** A stand-in for [normalize_eols] in examples: CR LF pairs become LF. *)
Fixpoint crlf_to_lf (s : str) : str :=
  match s with
  | [] => []
  | c :: rest =>
      match rest with
      | c' :: rest' =>
          if ((c =? CR) && (c' =? LF))%N then LF :: crlf_to_lf rest'
          else c :: crlf_to_lf rest
      | [] => [c]
      end
  end.

End Inputs.

Import Inputs.
Import GettextTools.

(* ================================================================== *)
(** ** More Python values: [strip], [split], [sorted], [dict] *)

Module PyText.

(** The characters that [str.strip()] removes: those on which
    [str.isspace] holds. *)
Definition is_space (c : N) : bool :=
  (  ((9 <=? c) && (c <=? 13)) || ((28 <=? c) && (c <=? 32))
  || (c =? 133) || (c =? 160) || (c =? 5760)
  || ((8192 <=? c) && (c <=? 8202))
  || (c =? 8232) || (c =? 8233) || (c =? 8239) || (c =? 8287)
  || (c =? 12288))%N.

Definition lstrip (s : str) : str := dropwhile is_space s.
Definition rstrip (s : str) : str := rev (dropwhile is_space (rev s)).

(** [s.strip()]. *)
Definition strip (s : str) : str := rstrip (lstrip s).

(** [s.split(sep)] for a separator of one character.  [cur] is the piece
    being read, most recent character first. *)
Fixpoint split_from (cur : str) (sep : N) (s : str) : list str :=
  match s with
  | [] => [rev cur]
  | c :: rest =>
      if (c =? sep)%N then rev cur :: split_from [] sep rest
      else split_from (c :: cur) sep rest
  end.

Definition split (sep : N) (s : str) : list str := split_from [] sep s.

(** [a <= b] on [str]: code point by code point, a prefix first. *)
Fixpoint str_le (a b : str) : bool :=
  match a, b with
  | [], _ => true
  | _ :: _, [] => false
  | x :: a', y :: b' =>
      if (x <? y)%N then true
      else if (x =? y)%N then str_le a' b'
      else false
  end.

(** [sorted(names)]: each name is put before the first name that is not
    smaller, so equal names keep their order. *)
Fixpoint insert_sorted (x : str) (l : list str) : list str :=
  match l with
  | [] => [x]
  | y :: rest =>
      if str_le x y then x :: y :: rest else y :: insert_sorted x rest
  end.

Definition sorted (names : list str) : list str :=
  fold_right insert_sorted [] names.

Definition ascending (a b : str) : Prop := str_le a b = true.

(** A [dict] with [str] keys, as its items in insertion order. *)
Definition dict (V : Type) : Type := list (str * V).

Definition str_eqb (a b : str) : bool :=
  if list_eq_dec N.eq_dec a b then true else false.

(** [d.get(key)]: the value of [d[key]], or [None] when [key in d] is
    false. *)
Fixpoint lookup (V : Type) (key : str) (d : dict V) : option V :=
  match d with
  | [] => None
  | (k, v) :: rest => if str_eqb key k then Some v else lookup key rest
  end.

Definition keys (V : Type) (d : dict V) : list str := map fst d.

End PyText.

Import PyText.

(* ================================================================== *)
(** ** [verboselib/management/help.py] *)

Module Help.

(** What the commands send to [print_out] and to [print_err], in order. *)
Inductive event : Type :=
| Out (text : str)
| Err (text : str).

(** A command module, as far as [help] reads it: [__usage__] (absent and
    [None] are the same to [getattr(module, '__usage__', None)]) and
    [__doc__]. *)
Record module : Type := mkModule {
  __usage__ : option str;
  __doc__ : option str
}.

Definition truthy_opt (o : option str) : bool :=
  match o with
  | Some s => truthy s
  | None => false
  end.

(** [_description]: the stripped docstring, or [None] for a module
    without docstring or with an empty one. *)
Definition _description (m : module) : option str :=
  match __doc__ m with
  | Some doc => if truthy doc then Some (strip doc) else None
  | None => None
  end.

(** The [messages] of [print_module_help] before they are joined. *)
Definition module_help_messages (m : module) : list str :=
  let messages := [] in
  let usage := __usage__ m in
  let messages :=
    match usage with
    | Some u =>
        if truthy u then messages ++ [lit "Usage:"] ++ [strip u] ++ [lit ""]
        else messages
    | None => messages
    end in
  let description := _description m in
  let messages :=
    match description with
    | Some d =>
        if truthy d then messages ++ [lit "Description:"] ++ [d]
        else messages ++ [lit "No description."]
    | None => messages ++ [lit "No description."]
    end in
  messages.

Definition print_module_help (m : module) : list event :=
  [Out (join [LF] (module_help_messages m))].

(** The text of one command in the list: the name, and the first line of
    the description in brackets when there is a description. *)
Definition command_message (name : str) (m : module) : str :=
  match _description m with
  | Some d =>
      if truthy d
      then name ++ lit " (" ++ hd [] (split LF d) ++ lit ")"
      else name
  | None => name
  end.

Section Commands.

(** The value of [get_commands()]: the command modules by name. *)
Variable commands : dict module.

(** The [messages] of [_list_commands] before they are joined.  A name of
    [commands.keys()] is always found by [commands[name]]. *)
Definition list_commands_messages : list str :=
  let messages := [lit "Available commands:"; lit ""] in
  fold_left
    (fun messages name =>
       match lookup name commands with
       | Some m => messages ++ [lit "    - " ++ command_message name m]
       | None => messages
       end)
    (sorted (keys commands)) messages.

Definition _list_commands : list event :=
  [Out (join [LF] list_commands_messages)].

Definition execute (args : list str) : list event :=
  match args with
  | command :: _ =>
      match lookup command commands with
      | Some m => print_module_help m
      | None =>
          [Err (lit "Unknown command '" ++ command ++ lit "'.")]
          ++ _list_commands
      end
  | [] => _list_commands
  end.

End Commands.

End Help.

Import Help.

(** Three commands: one with usage and a docstring of several lines, one
    with a docstring of whitespace, one without docstring. *)
Definition sample_commands : dict module :=
  [ (lit "extract",
     mkModule (Some (lit "extract [<options>]"))
       (Some ([LF] ++ lit "Extract strings." ++ [LF] ++ lit "More." ++ [LF])));
    (lit "compile", mkModule None (Some (lit "   ")));
    (lit "add", mkModule None None) ].

(* ================================================================== *)
(** ** Lines, joining and dropping *)

(** *** One step of [splitlines_from] *)

Lemma splitlines_from_break :
  forall (cur : str) (c : N) (rest : str),
    is_linebreak c = true ->
    exists rest' : str,
      splitlines_from cur (c :: rest) = rev cur :: splitlines_from [] rest'
      /\ (rest' = rest \/ rest = LF :: rest').
Proof.
  intros cur c rest Hc. cbn [splitlines_from]. rewrite Hc.
  destruct (c =? CR)%N; [|exists rest; auto].
  destruct rest as [|d rest']; [exists []; auto|].
  destruct (N.eqb_spec d LF) as [->|_].
  - exists rest'. auto.
  - exists (d :: rest'). auto.
Qed.

Lemma splitlines_from_char :
  forall (cur : str) (c : N) (rest : str),
    is_linebreak c = false ->
    splitlines_from cur (c :: rest) = splitlines_from (c :: cur) rest.
Proof.
  intros cur c rest Hc. cbn [splitlines_from]. now rewrite Hc.
Qed.

(** *** The lines hold no line boundary *)

Lemma splitlines_from_lines_bounded :
  forall n s cur,
    List.length s <= n ->
    Forall not_break cur ->
    Forall (Forall not_break) (splitlines_from cur s).
Proof.
  induction n as [|n IH]; intros s cur Hlen Hcur.
  - destruct s as [|c rest]; [|simpl in Hlen; lia].
    simpl. destruct cur; constructor; auto using Forall_rev.
  - destruct s as [|c rest].
    + simpl. destruct cur; constructor; auto using Forall_rev.
    + simpl in Hlen. destruct (is_linebreak c) eqn:Hc.
      * destruct (@splitlines_from_break cur c rest Hc) as [rest' [E Hrest]].
        rewrite E. constructor; [auto using Forall_rev|].
        apply IH; [|constructor].
        destruct Hrest as [-> | ->]; simpl in *; lia.
      * rewrite (@splitlines_from_char cur c rest Hc).
        apply IH; [lia|]. constructor; auto.
Qed.

Lemma splitlines_lines :
  forall s, Forall (Forall not_break) (splitlines s).
Proof.
  intro s. unfold splitlines.
  apply splitlines_from_lines_bounded with (n := List.length s); auto.
Qed.

Lemma dropwhile_Forall :
  forall (A : Type) (P : A -> Prop) (pred : A -> bool) (l : list A),
    Forall P l -> Forall P (dropwhile pred l).
Proof.
  intros A P pred l H. induction H as [|x xs Hx Hxs IH]; simpl.
  - constructor.
  - destruct (pred x); auto.
Qed.

Lemma join_Forall :
  forall (P : N -> Prop) (sep : str) (parts : list str),
    Forall P sep -> Forall (Forall P) parts -> Forall P (join sep parts).
Proof.
  intros P sep parts Hsep H. induction H as [|p ps Hp Hps IH].
  - constructor.
  - simpl. destruct ps as [|q qs]; [exact Hp|].
    apply Forall_app; split; [exact Hp|].
    apply Forall_app; split; [exact Hsep | exact IH].
Qed.

Lemma dropwhile_all :
  forall (A : Type) (pred : A -> bool) (l : list A),
    Forall (fun x => pred x = true) l -> dropwhile pred l = [].
Proof.
  intros A pred l H. induction H as [|x xs Hx Hxs IH]; simpl; auto.
  rewrite Hx. exact IH.
Qed.

Lemma truthy_len_nonempty :
  forall l : str, l <> [] -> truthy_int (len l) = true.
Proof.
  intros [|c l] H; [congruence|]. reflexivity.
Qed.

Lemma unterminated_tail :
  forall (c : N) (rest : str), unterminated (c :: rest) -> unterminated rest.
Proof.
  unfold unterminated. intros c [|d rest] H.
  - simpl. unfold LF. discriminate.
  - exact H.
Qed.

Lemma only_LF_breaks_tail :
  forall (c : N) (rest : str), only_LF_breaks (c :: rest) -> only_LF_breaks rest.
Proof.
  unfold only_LF_breaks. intros c rest H d Hd. apply H. right. exact Hd.
Qed.

(** With LF as the only boundary and no terminator at the end, joining the
    lines by LF gives the text back. *)
Lemma join_splitlines_from :
  forall s cur,
    only_LF_breaks s -> unterminated s ->
    join [LF] (splitlines_from cur s) = rev cur ++ s.
Proof.
  induction s as [|c rest IH]; intros cur Hlf Hend.
  - simpl. destruct cur as [|d cur]; [reflexivity|].
    simpl join. now rewrite app_nil_r.
  - pose proof (only_LF_breaks_tail Hlf) as Hlf'.
    pose proof (unterminated_tail Hend) as Hend'.
    simpl. destruct (is_linebreak c) eqn:Hc.
    + assert (c = LF) as -> by (apply Hlf; [left; reflexivity | exact Hc]).
      change (LF =? CR)%N with false. cbv iota.
      specialize (IH [] Hlf' Hend'). simpl in IH.
      destruct (splitlines_from [] rest) as [|l ls] eqn:E.
      * simpl in IH. subst rest. exfalso. apply Hend. reflexivity.
      * change (join [LF] (rev cur :: l :: ls))
          with (rev cur ++ [LF] ++ join [LF] (l :: ls)).
        rewrite IH. reflexivity.
    + rewrite (IH (c :: cur) Hlf' Hend'). simpl.
      now rewrite <- app_assoc.
Qed.

Lemma join_splitlines :
  forall s, only_LF_breaks s -> unterminated s -> join [LF] (splitlines s) = s.
Proof.
  intros s Hlf Hend. unfold splitlines.
  now rewrite join_splitlines_from.
Qed.

Lemma dropwhile_until :
  forall (A : Type) (pred : A -> bool) (pre : list A) (x : A) (post : list A),
    Forall (fun y => pred y = true) pre -> pred x = false ->
    dropwhile pred (pre ++ x :: post) = x :: post.
Proof.
  intros A pred pre x post H Hx. induction H as [|y ys Hy Hys IH]; simpl.
  - now rewrite Hx.
  - now rewrite Hy.
Qed.

Lemma dropwhile_no_leading_block :
  forall s,
    no_leading_block s = true ->
    dropwhile (fun l => truthy_int (len l)) (splitlines s) = splitlines s.
Proof.
  intros s H. unfold no_leading_block in H.
  destruct (splitlines s) as [|l ls]; [reflexivity|].
  simpl. destruct (truthy_int (len l)); [discriminate | reflexivity].
Qed.

(** *** Lengths: joining the lines never gives a longer text *)

Lemma join_cons_length :
  forall (sep p : str) (ps : list str),
    List.length (join sep (p :: ps))
    <= List.length p + List.length sep + List.length (join sep ps).
Proof.
  intros sep p [|q qs].
  - simpl. lia.
  - change (join sep (p :: q :: qs)) with (p ++ sep ++ join sep (q :: qs)).
    rewrite !length_app. lia.
Qed.

Lemma join_tail_length :
  forall (sep p : str) (ps : list str),
    List.length (join sep ps) + List.length p
    <= List.length (join sep (p :: ps)).
Proof.
  intros sep p [|q qs].
  - simpl. lia.
  - change (join sep (p :: q :: qs)) with (p ++ sep ++ join sep (q :: qs)).
    rewrite !length_app. lia.
Qed.

Lemma join_dropwhile_length :
  forall (sep : str) (pred : str -> bool) (l : list str),
    List.length (join sep (dropwhile pred l)) <= List.length (join sep l).
Proof.
  intros sep pred l. induction l as [|p ps IH]; [simpl; lia|].
  cbn [dropwhile]. destruct (pred p); [|lia].
  pose proof (join_tail_length sep p ps). lia.
Qed.

Lemma last_cons_nonempty :
  forall (c d : N) (rest : str), last (c :: d :: rest) 0%N = last (d :: rest) 0%N.
Proof.
  reflexivity.
Qed.

Lemma splitlines_from_end_length :
  forall cur : str,
    List.length (join [LF] (splitlines_from cur [])) = List.length cur.
Proof.
  intros [|c cur]; [reflexivity|].
  cbn [splitlines_from join]. apply length_rev.
Qed.

Lemma splitlines_from_join_length :
  forall n s cur,
    List.length s <= n ->
    List.length (join [LF] (splitlines_from cur s))
    <= List.length cur + List.length s
    /\ (last s 0%N = LF ->
        List.length (join [LF] (splitlines_from cur s))
        < List.length cur + List.length s).
Proof.
  induction n as [|n IH]; intros s cur Hlen.
  - destruct s as [|c rest]; [|simpl in Hlen; lia].
    split; [|discriminate]. rewrite splitlines_from_end_length. simpl. lia.
  - destruct s as [|c rest].
    + split; [|discriminate]. rewrite splitlines_from_end_length. simpl. lia.
    + simpl in Hlen. destruct (is_linebreak c) eqn:Hc.
      * destruct (@splitlines_from_break cur c rest Hc) as [rest' [E Hrest]].
        rewrite E.
        pose proof (join_cons_length [LF] (rev cur) (splitlines_from [] rest'))
          as Hj.
        rewrite length_rev in Hj. cbn [List.length] in Hj |- *.
        unfold str in *.
        destruct Hrest as [-> | ->].
        -- destruct (IH rest [] ltac:(lia)) as [Hle Hlt].
           cbn [List.length] in Hle, Hlt. split; [lia|].
           destruct rest as [|d rest'].
           ++ intros _. cbn. rewrite length_rev. lia.
           ++ rewrite last_cons_nonempty. intro HL. specialize (Hlt HL).
              cbn [List.length] in *. lia.
        -- destruct (IH rest' [] ltac:(cbn [List.length] in Hlen; lia))
             as [Hle _].
           cbn [List.length] in *. split; intros; lia.
      * rewrite (@splitlines_from_char cur c rest Hc).
        destruct (IH rest (c :: cur) ltac:(lia)) as [Hle Hlt].
        cbn [List.length] in *. split; [lia|].
        destruct rest as [|d rest'].
        -- cbn. intros ->. discriminate Hc.
        -- rewrite last_cons_nonempty. intro HL. specialize (Hlt HL). lia.
Qed.

Lemma join_splitlines_length :
  forall s : str,
    List.length (join [LF] (splitlines s)) <= List.length s
    /\ (last s 0%N = LF ->
        List.length (join [LF] (splitlines s)) < List.length s).
Proof.
  intro s. unfold splitlines.
  destruct (@splitlines_from_join_length (List.length s) s [] (le_n _))
    as [Hle Hlt].
  split; [exact Hle | exact Hlt].
Qed.

(** Every line boundary of the stripped text is LF. *)
Lemma strip_header_breaks :
  forall s : str,
    Forall (fun c => is_linebreak c = true -> c = LF)
      (strip_translations_header s).
Proof.
  intro s. unfold strip_translations_header. apply join_Forall.
  - repeat constructor.
  - apply dropwhile_Forall.
    eapply Forall_impl; [|apply splitlines_lines].
    intros l Hl. eapply Forall_impl; [|exact Hl].
    unfold not_break. intros c Hc Hc'. congruence.
Qed.

(** A text that [strip_translations_header] returns unchanged has LF as its
    only line boundary and does not end with LF. *)
Lemma strip_header_fixed_point_shape :
  forall s : str,
    strip_translations_header s = s -> only_LF_breaks s /\ unterminated s.
Proof.
  intros s Hfix. split.
  - pose proof (strip_header_breaks s) as H. rewrite Hfix in H.
    rewrite Forall_forall in H. exact H.
  - intro HL.
    pose proof (proj2 (join_splitlines_length s) HL) as Hlt.
    pose proof (join_dropwhile_length [LF] (fun l => truthy_int (len l))
                  (splitlines s)) as Hle.
    fold (strip_translations_header s) in Hle. rewrite Hfix in Hle. lia.
Qed.

(* ================================================================== *)
(** ** Stripping the catalog header *)

(** C4. A text in which every line is non-empty (it has no blank line) is
    dropped whole: [strip_translations_header] returns the empty string. *)
Theorem strip_header_without_blank_line :
  forall s : str,
    Forall (fun l => l <> []) (splitlines s) ->
    strip_translations_header s = [].
Proof.
  intros s H. unfold strip_translations_header.
  rewrite dropwhile_all; [reflexivity|].
  eapply Forall_impl; [|exact H].
  intros l Hl. now apply truthy_len_nonempty.
Qed.

Lemma strip_header_without_blank_line_witness :
  Forall (fun l : str => l <> []) (splitlines (lit "#a" ++ [CR; LF] ++ lit "b"))
  /\ strip_translations_header (lit "#a" ++ [CR; LF] ++ lit "b") = [].
Proof.
  split.
  - repeat constructor; discriminate.
  - apply (strip_header_without_blank_line (lit "#a" ++ [CR; LF] ++ lit "b")).
    repeat constructor; discriminate.
Defined.

(** C10. The result of [strip_translations_header] holds no carriage
    return, whatever the line endings of the input: the lines that
    [splitlines] yields hold no line boundary, and they are joined by LF, so
    LF is the only line boundary of the result. *)
Theorem strip_header_newline_normalized :
  forall s : str,
    ~ In CR (strip_translations_header s)
    /\ (forall c, In c (strip_translations_header s) ->
                  is_linebreak c = true -> c = LF).
Proof.
  intro s. pose proof (strip_header_breaks s) as H.
  rewrite Forall_forall in H. split.
  - intro Hin. specialize (H CR Hin eq_refl). discriminate.
  - exact H.
Qed.

(** C2, as the code has it.  [strip_translations_header] drops the leading
    non-empty lines up to, but not including, the first blank line, and
    returns the remaining lines, the blank line first, joined by LF.  On
    [#comment1 LF #comment2 LF LF msgid "a" LF msgstr "" LF] the result is
    [LF msgid "a" LF msgstr ""]: the separating blank line stays and the
    last line has no terminator. *)
Theorem strip_header_keeps_blank_line :
  (forall (s : str) (header body : list str),
      splitlines s = header ++ [] :: body ->
      Forall (fun l => l <> []) header ->
      strip_translations_header s = join [LF] ([] :: body))
  /\ strip_translations_header catalog_with_header = catalog_body_after_blank.
Proof.
  split.
  - intros s header body Hs Hh. unfold strip_translations_header.
    rewrite Hs. rewrite dropwhile_until; [reflexivity | | reflexivity].
    eapply Forall_impl; [|exact Hh].
    intros l Hl. now apply truthy_len_nonempty.
  - vm_compute. reflexivity.
Qed.

Lemma strip_header_keeps_blank_line_witness :
  strip_translations_header catalog_with_header
  = join [LF]
      ([] :: [ lit "msgid " ++ [DQUOTE] ++ lit "a" ++ [DQUOTE];
               lit "msgstr " ++ [DQUOTE; DQUOTE] ]).
Proof.
  apply (proj1 strip_header_keeps_blank_line catalog_with_header
           [lit "#comment1"; lit "#comment2"]).
  - vm_compute. reflexivity.
  - repeat constructor; discriminate.
Defined.

(** C2, as the specification words it, fails: the result on the example
    text is not [msgid "a" LF msgstr "" LF]. *)
Lemma strip_header_example_not_body :
  strip_translations_header catalog_with_header <> catalog_body.
Proof.
  vm_compute. discriminate.
Qed.

(** C5, as the code has it.  On a text whose first line is not a non-empty
    line, [strip_translations_header] drops no line and returns the lines of
    the text joined by LF; the text comes back unchanged exactly when, in
    addition, LF is the only line boundary in it and it does not end with
    LF. *)
Theorem strip_header_on_stripped_input :
  forall s : str,
    no_leading_block s = true ->
    strip_translations_header s = join [LF] (splitlines s)
    /\ (strip_translations_header s = s <-> only_LF_breaks s /\ unterminated s).
Proof.
  intros s H. split.
  - unfold strip_translations_header.
    now rewrite (dropwhile_no_leading_block s H).
  - split; [apply strip_header_fixed_point_shape|].
    intros [Hlf Hend]. unfold strip_translations_header.
    rewrite (dropwhile_no_leading_block s H). now apply join_splitlines.
Qed.

Lemma strip_header_on_stripped_input_witness :
  no_leading_block catalog_body_after_blank = true
  /\ strip_translations_header catalog_body_after_blank = catalog_body_after_blank.
Proof.
  split; [reflexivity|].
  apply (proj2 (proj2 (strip_header_on_stripped_input
                         catalog_body_after_blank eq_refl))).
  split.
  - intros c Hin Hc. vm_compute in Hin.
    repeat (destruct Hin as [<- | Hin]; [first [reflexivity | discriminate Hc]|]).
    destruct Hin.
  - vm_compute. discriminate.
Defined.

(** C5, as the specification words it, fails: a text that starts with a
    blank line loses its final line terminator, and a CR LF boundary comes
    back as LF. *)
Lemma strip_header_changes_stripped_input :
  (no_leading_block blank_then_line = true
   /\ strip_translations_header blank_then_line <> blank_then_line)
  /\ (no_leading_block blank_then_crlf = true
      /\ strip_translations_header blank_then_crlf <> blank_then_crlf).
Proof.
  repeat split; try reflexivity; vm_compute; discriminate.
Qed.

(* ================================================================== *)
(** ** The argument lists of the five tools *)

Section Builders.

Variable Path : Type.
Variable stringify_path : Path -> str.


Lemma extend_if_truthy :
  forall args extra_args : list str,
    (if truthy_list extra_args then extend args extra_args else args)
    = args ++ extra_args.
Proof.
  intros args [|x xs]; simpl; [now rewrite app_nil_r | reflexivity].
Qed.

Lemma append_if :
  forall (b : bool) (args : list str) (token : str),
    (if b then append args token else args) = args ++ flag_if b token.
Proof.
  intros [|] args token; simpl; [reflexivity | now rewrite app_nil_r].
Qed.

Ltac unfold_builder :=
  unfold _make_xgettext_args, _make_msguniq_args,
    _make_msgmerge_args, _make_msgattrib_args, _make_msgfmt_args;
  cbv zeta;
  rewrite ?extend_if_truthy, ?append_if;
  unfold append, extend;
  repeat rewrite <- app_assoc;
  simpl app.

(** C3. Each of the five builders returns, for every value of its options,
    the tokens of its structured options first (the tool name, the fixed
    flags, one flag per keyword, the optional flags), then the extra
    arguments as given, then its path arguments, which end the list: the
    source file for [xgettext], the template for [msguniq], the catalog and
    the template for [msgmerge], and the output option [-o] with its path
    followed by the input path for [msgattrib] and [msgfmt]. *)
Theorem builders_flags_extras_paths :
  forall (no_wrap no_location fuzzy : bool) (domain : str)
         (keywords extra_args : list str) (p q : Path),
    _make_xgettext_args stringify_path p domain keywords no_wrap no_location extra_args
    = ([ lit "xgettext"; lit "-d"; domain; lit "--from-code=UTF-8";
         lit "--add-comments=Translators"; lit "--output=-" ]
       ++ map (fun k => lit "--keyword=" ++ k) keywords
       ++ flag_if no_wrap (lit "--no-wrap")
       ++ flag_if no_location (lit "--no-location"))
      ++ extra_args
      ++ [ stringify_path p ]
    /\ _make_msguniq_args stringify_path p no_wrap no_location extra_args
       = ([ lit "msguniq"; lit "--to-code=utf-8" ]
          ++ flag_if no_wrap (lit "--no-wrap")
          ++ flag_if no_location (lit "--no-location"))
         ++ extra_args
         ++ [ stringify_path p ]
    /\ _make_msgmerge_args stringify_path p q no_wrap no_location extra_args
       = ([ lit "msgmerge"; lit "-q"; lit "--previous" ]
          ++ flag_if no_wrap (lit "--no-wrap")
          ++ flag_if no_location (lit "--no-location"))
         ++ extra_args
         ++ [ stringify_path p; stringify_path q ]
    /\ _make_msgattrib_args stringify_path p no_wrap no_location extra_args
       = ([ lit "msgattrib"; lit "--no-obsolete" ]
          ++ flag_if no_wrap (lit "--no-wrap")
          ++ flag_if no_location (lit "--no-location"))
         ++ extra_args
         ++ [ lit "-o"; stringify_path p; stringify_path p ]
    /\ _make_msgfmt_args stringify_path p q fuzzy extra_args
       = ([ lit "msgfmt"; lit "--check-format" ]
          ++ flag_if fuzzy (lit "-f"))
         ++ extra_args
         ++ [ lit "-o"; stringify_path p; stringify_path q ].
Proof.
  intros. repeat split; unfold_builder; reflexivity.
Qed.

(** C6. For domain [messages], the single keyword [_], [no_wrap] and
    [no_location] set and no extra argument, the extraction builder returns
    [xgettext -d messages --from-code=UTF-8 --add-comments=Translators
    --output=- --keyword=_ --no-wrap --no-location <path>], where [<path>]
    is the source file path as a string; in general there is one
    [--keyword=<k>] token per keyword, in the order of the keywords, right
    after the fixed flags. *)
Theorem xgettext_args_scenario :
  (forall p : Path,
      _make_xgettext_args stringify_path p (lit "messages") [lit "_"] true true []
      = [ lit "xgettext"; lit "-d"; lit "messages"; lit "--from-code=UTF-8";
          lit "--add-comments=Translators"; lit "--output=-";
          lit "--keyword=_"; lit "--no-wrap"; lit "--no-location";
          stringify_path p ])
  /\ (forall (p : Path) (domain : str) (keywords : list str)
             (no_wrap no_location : bool) (extra_args : list str),
        _make_xgettext_args stringify_path p domain keywords no_wrap
          no_location extra_args
        = [ lit "xgettext"; lit "-d"; domain; lit "--from-code=UTF-8";
            lit "--add-comments=Translators"; lit "--output=-" ]
          ++ map (fun k => lit "--keyword=" ++ k) keywords
          ++ flag_if no_wrap (lit "--no-wrap")
          ++ flag_if no_location (lit "--no-location")
          ++ extra_args ++ [ stringify_path p ]).
Proof.
  split.
  - intro p. reflexivity.
  - intros. unfold_builder. reflexivity.
Qed.

(** C7. The obsolete-removal builder ends its list, for every catalog path
    and every option, with [-o] followed twice by the same string of the
    catalog path: the output file is the input file.  For the path
    [/tmp/x.po], no flag and no extra argument the list is
    [msgattrib --no-obsolete -o /tmp/x.po /tmp/x.po]. *)
Theorem msgattrib_args_in_place :
  (forall (p : Path) (no_wrap no_location : bool) (extra_args : list str),
      exists front : list str,
        _make_msgattrib_args stringify_path p no_wrap no_location extra_args
        = front ++ [ lit "-o"; stringify_path p; stringify_path p ])
  /\ (forall p : Path,
        stringify_path p = lit "/tmp/x.po" ->
        _make_msgattrib_args stringify_path p false false []
        = [ lit "msgattrib"; lit "--no-obsolete"; lit "-o";
            lit "/tmp/x.po"; lit "/tmp/x.po" ]).
Proof.
  split.
  - intros.
    exists ([ lit "msgattrib"; lit "--no-obsolete" ]
            ++ flag_if no_wrap (lit "--no-wrap")
            ++ flag_if no_location (lit "--no-location")
            ++ extra_args).
    unfold_builder. reflexivity.
  - intros p Hp. unfold_builder. rewrite Hp. reflexivity.
Qed.

(** C8, as the code has it.  The compile builder starts every list with
    [msgfmt --check-format]; its own flags, the tokens before the extra
    arguments, hold [-f] exactly when [fuzzy] is set; after the extra
    arguments the list ends with [-o], the output binary path and the input
    catalog path.  The list as a whole holds [-f] exactly when [fuzzy] is
    set, or [-f] is one of the extra arguments or the string of one of the
    two paths.  For [out.mo] from [in.po] with [fuzzy] set and no extra
    argument the list is [msgfmt --check-format -f -o out.mo in.po]. *)
Theorem msgfmt_args_shape :
  (forall (mo po : Path) (fuzzy : bool) (extra_args : list str),
      exists flags : list str,
        flags = [ lit "msgfmt"; lit "--check-format" ] ++ flag_if fuzzy (lit "-f")
        /\ _make_msgfmt_args stringify_path mo po fuzzy extra_args
           = flags ++ extra_args
             ++ [ lit "-o"; stringify_path mo; stringify_path po ]
        /\ In (lit "--check-format") flags
        /\ (In (lit "-f") flags <-> fuzzy = true)
        /\ (In (lit "-f")
               (_make_msgfmt_args stringify_path mo po fuzzy extra_args)
            <-> fuzzy = true \/ In (lit "-f") extra_args
                \/ stringify_path mo = lit "-f"
                \/ stringify_path po = lit "-f"))
  /\ (forall mo po : Path,
        stringify_path mo = lit "out.mo" ->
        stringify_path po = lit "in.po" ->
        _make_msgfmt_args stringify_path mo po true []
        = [ lit "msgfmt"; lit "--check-format"; lit "-f"; lit "-o";
            lit "out.mo"; lit "in.po" ]).
Proof.
  split.
  - intros mo po fuzzy extra_args.
    assert (In (lit "-f")
              ([ lit "msgfmt"; lit "--check-format" ] ++ flag_if fuzzy (lit "-f"))
            <-> fuzzy = true) as Hown.
    { destruct fuzzy; simpl.
      - split; [reflexivity|]. intros _. right. right. left. reflexivity.
      - split; [|discriminate].
        intros [H | [H | []]]; discriminate H. }
    assert (_make_msgfmt_args stringify_path mo po fuzzy extra_args
            = ([ lit "msgfmt"; lit "--check-format" ] ++ flag_if fuzzy (lit "-f"))
              ++ extra_args
              ++ [ lit "-o"; stringify_path mo; stringify_path po ]) as Hshape
      by (unfold_builder; reflexivity).
    eexists. split; [reflexivity|]. split; [exact Hshape|].
    split; [right; left; reflexivity|]. split; [exact Hown|].
    rewrite Hshape.
    rewrite (in_app_iff
               ([ lit "msgfmt"; lit "--check-format" ] ++ flag_if fuzzy (lit "-f"))).
    rewrite Hown, in_app_iff. cbn [In]. split.
    + intros [H | [H | [H | [H | [H | []]]]]]; auto. discriminate H.
    + intros [H | [H | [H | H]]]; auto 7.
  - intros mo po Hmo Hpo. unfold_builder. rewrite Hmo, Hpo. reflexivity.
Qed.

End Builders.

Lemma msgattrib_args_in_place_witness :
  _make_msgattrib_args (fun p : str => p) (lit "/tmp/x.po") false false []
  = [ lit "msgattrib"; lit "--no-obsolete"; lit "-o";
      lit "/tmp/x.po"; lit "/tmp/x.po" ].
Proof.
  apply (proj2 (msgattrib_args_in_place (fun p : str => p)) (lit "/tmp/x.po")).
  reflexivity.
Defined.

Lemma msgfmt_args_shape_witness :
  _make_msgfmt_args (fun p : str => p) (lit "out.mo") (lit "in.po") true []
  = [ lit "msgfmt"; lit "--check-format"; lit "-f"; lit "-o";
      lit "out.mo"; lit "in.po" ].
Proof.
  apply (proj2 (msgfmt_args_shape (fun p : str => p))
           (lit "out.mo") (lit "in.po")); reflexivity.
Defined.

(** C8, as the specification words it, fails: with [fuzzy] unset the list
    holds [-f] when [-f] is given as an extra argument. *)
Lemma msgfmt_args_f_without_fuzzy :
  ~ (In (lit "-f")
       (_make_msgfmt_args (fun p : str => p) (lit "out.mo") (lit "in.po")
          false [lit "-f"])
     <-> false = true).
Proof.
  intros [H _]. discriminate H.
  right. right. left. reflexivity.
Qed.

(* ================================================================== *)
(** ** Classifying a tool run and checking the tool chain *)

Section Runs.

Variable normalize_eols : str -> str.
Variable find_executable : str -> option str.
Variable popen_wrapper : list str -> exn + (str * str * Z).

(** The three ways a finished run is classified. *)
Lemma tool_output_cases :
  forall (args : list str) (tool : str) (rest : list str)
         (content errors : str) (status : Z),
    args = tool :: rest ->
    popen_wrapper args = inr (content, errors, status) ->
    get_gettext_tool_output normalize_eols popen_wrapper args
    = match errors with
      | [] =>
          mkM (inr (if truthy content then normalize_eols content else content))
              []
      | _ :: _ =>
          if (status =? 0)%Z then
            mkM (inr (if truthy content then normalize_eols content else content))
                [errors]
          else
            mkM (inl (RuntimeError (tool_failure_message tool status errors)))
                []
      end.
Proof.
  intros args tool rest content errors status -> Hrun.
  unfold get_gettext_tool_output. rewrite Hrun.
  unfold GETTEXT_TOOLS_STATUS_OK, bind, lift. cbn [outcome printed].
  destruct errors as [|e es]; [reflexivity|].
  cbn [truthy]. destruct (status =? 0)%Z; reflexivity.
Qed.

(** C1. When the tool ran and gave [(content, errors, status)], the call
    raises if and only if [errors] is not empty and [status] is not zero.
    The exception is then a [RuntimeError] whose message holds the first
    argument (the tool name), the status and [errors].  With [errors] not
    empty and [status] zero, [errors] goes to [print_err] and the stdout,
    normalized when it is not empty, is returned.  With [errors] empty the
    stdout is returned and nothing is printed, whatever the status. *)
Theorem tool_output_classification :
  forall (args : list str) (tool : str) (rest : list str)
         (content errors : str) (status : Z),
    args = tool :: rest ->
    popen_wrapper args = inr (content, errors, status) ->
    let run := get_gettext_tool_output normalize_eols popen_wrapper args in
    let out := if truthy content then normalize_eols content else content in
    (raises run <-> errors <> [] /\ status <> 0%Z)
    /\ (errors <> [] -> status <> 0%Z ->
        run = mkM (inl (RuntimeError
                          (lit "failed to run gettext tool '" ++ tool
                           ++ lit "' (status=" ++ str_of_int status
                           ++ lit "): " ++ errors)))
                  [])
    /\ (errors <> [] -> status = 0%Z -> run = mkM (inr out) [errors])
    /\ (errors = [] -> run = mkM (inr out) []).
Proof.
  intros args tool rest content errors status Hargs Hrun.
  cbv zeta. rewrite (tool_output_cases Hargs Hrun).
  unfold raises, tool_failure_message.
  destruct errors as [|e es]; [|destruct (Z.eqb_spec status 0) as [Hs|Hs]];
    cbn [outcome].
  - split; [split|].
    + intros [x Hx]. discriminate Hx.
    + intros [Hne _]. congruence.
    + repeat split; intros; congruence.
  - split; [split|].
    + intros [x Hx]. discriminate Hx.
    + intros [_ Hne]. congruence.
    + repeat split; intros; congruence.
  - split; [split|].
    + intros _. split; [discriminate | exact Hs].
    + intros _. eexists. reflexivity.
    + repeat split; intros; congruence.
Qed.

Lemma validate_each_all_found :
  forall names : list str,
    (forall name, In name names -> find_executable name <> None) ->
    validate_each find_executable names = ret tt.
Proof.
  induction names as [|n names IH]; intro H; simpl; [reflexivity|].
  destruct (find_executable n) eqn:E.
  - apply IH. intros name Hin. apply H. right. exact Hin.
  - exfalso. apply (H n); [left; reflexivity | exact E].
Qed.

Lemma validate_each_first_missing :
  forall (before : list str) (name : str) (after : list str),
    (forall n, In n before -> find_executable n <> None) ->
    find_executable name = None ->
    validate_each find_executable (before ++ name :: after)
    = raise unit (OSError (missing_executable_message name)).
Proof.
  induction before as [|b before IH]; intros name after Hb Hn; simpl.
  - rewrite Hn. reflexivity.
  - destruct (find_executable b) eqn:E.
    + apply IH; [|exact Hn]. intros n Hin. apply Hb. right. exact Hin.
    + exfalso. apply (Hb b); [left; reflexivity | exact E].
Qed.

(** C9. The executables are looked up in the order [xgettext], [msguniq],
    [msgmerge], [msgattrib], [msgfmt].  When each of them resolves, the
    check returns and raises nothing.  Otherwise it raises an [OSError]
    whose message names the first one that does not resolve and asks for
    GNU gettext tools 0.15 or newer. *)
Theorem validate_tools_first_missing :
  GETTEXT_TOOLS_EXECUTABLES
  = [ lit "xgettext"; lit "msguniq"; lit "msgmerge"; lit "msgattrib";
      lit "msgfmt" ]
  /\ ((forall name, In name GETTEXT_TOOLS_EXECUTABLES ->
                    find_executable name <> None) ->
      validate_gettext_tools_exist find_executable = ret tt)
  /\ (forall (before : list str) (name : str) (after : list str),
        GETTEXT_TOOLS_EXECUTABLES = before ++ name :: after ->
        (forall n, In n before -> find_executable n <> None) ->
        find_executable name = None ->
        validate_gettext_tools_exist find_executable
        = raise unit
            (OSError
               (lit "cannot find executable '" ++ name
                ++ lit "': make sure you have GNU gettext tools 0.15 or newer installed"))).
Proof.
  split; [reflexivity|]. split.
  - intro H. unfold validate_gettext_tools_exist.
    now apply validate_each_all_found.
  - intros before name after Hsplit Hb Hn.
    unfold validate_gettext_tools_exist. rewrite Hsplit.
    now apply validate_each_first_missing.
Qed.

End Runs.

Lemma tool_output_classification_witness :
  get_gettext_tool_output crlf_to_lf (popen_const [] (lit "error") 1)
    [lit "msgfmt"; lit "in.po"]
  = mkM (inl (RuntimeError
                (lit "failed to run gettext tool 'msgfmt' (status=1): error")))
        []
  /\ get_gettext_tool_output crlf_to_lf
       (popen_const (lit "msg" ++ [CR; LF]) (lit "warn") 0)
       [lit "msgfmt"; lit "in.po"]
     = mkM (inr (lit "msg" ++ [LF])) [lit "warn"].
Proof.
  split.
  - apply (proj1 (proj2
      (@tool_output_classification crlf_to_lf
         (popen_const [] (lit "error") 1)
         [lit "msgfmt"; lit "in.po"] (lit "msgfmt") [lit "in.po"]
         [] (lit "error") 1%Z eq_refl eq_refl))); discriminate.
  - apply (proj1 (proj2 (proj2
      (@tool_output_classification crlf_to_lf
         (popen_const (lit "msg" ++ [CR; LF]) (lit "warn") 0)
         [lit "msgfmt"; lit "in.po"] (lit "msgfmt") [lit "in.po"]
         (lit "msg" ++ [CR; LF]) (lit "warn") 0%Z eq_refl eq_refl))));
      [discriminate | reflexivity].
Defined.

Lemma validate_tools_first_missing_witness :
  validate_gettext_tools_exist
    (find_among [lit "xgettext"; lit "msguniq"; lit "msgattrib"])
  = raise unit
      (OSError
         (lit "cannot find executable 'msgmerge': make sure you have GNU gettext tools 0.15 or newer installed"))
  /\ validate_gettext_tools_exist (find_among GETTEXT_TOOLS_EXECUTABLES)
     = ret tt.
Proof.
  split.
  - apply (proj2 (proj2
      (validate_tools_first_missing
         (find_among [lit "xgettext"; lit "msguniq"; lit "msgattrib"])))
      [lit "xgettext"; lit "msguniq"] (lit "msgmerge")
      [lit "msgattrib"; lit "msgfmt"]).
    + reflexivity.
    + intros n [<- | [<- | []]]; vm_compute; discriminate.
    + vm_compute. reflexivity.
  - apply (proj1 (proj2
      (validate_tools_first_missing (find_among GETTEXT_TOOLS_EXECUTABLES)))).
    intros name Hin. unfold find_among.
    destruct (in_dec (list_eq_dec N.eq_dec) name GETTEXT_TOOLS_EXECUTABLES);
      [discriminate | contradiction].
Defined.

(* ================================================================== *)
(** ** The stages: builder, run and classification together *)

Section Stages.

Variable Path : Type.
Variable stringify_path : Path -> str.
Variable normalize_eols : str -> str.
Variable find_executable : str -> option str.
Variable popen_wrapper : list str -> exn + (str * str * Z).

(** What a call gives, for every argument list and every behaviour of
    [popen_wrapper]. *)
Lemma tool_output_all_cases :
  forall args : list str,
    get_gettext_tool_output normalize_eols popen_wrapper args
    = match popen_wrapper args with
      | inl e => mkM (inl e) []
      | inr (content, errors, status) =>
          let out := if truthy content then normalize_eols content
                     else content in
          match errors with
          | [] => mkM (inr out) []
          | _ :: _ =>
              if (status =? 0)%Z then mkM (inr out) [errors]
              else
                match args with
                | [] => mkM (inl IndexError) []
                | tool_name :: _ =>
                    mkM (inl (RuntimeError
                                (tool_failure_message tool_name status errors)))
                        []
                end
          end
      end.
Proof.
  intro args. unfold get_gettext_tool_output.
  destruct (popen_wrapper args) as [e | [[content errors] status]].
  - reflexivity.
  - unfold GETTEXT_TOOLS_STATUS_OK, bind, lift. cbn [outcome printed].
    destruct errors as [|c cs]; [reflexivity|].
    cbn [truthy]. destruct (status =? 0)%Z; [reflexivity|].
    destruct args; reflexivity.
Qed.

(** X1. An exception of [popen_wrapper] (the process could not be started)
    leaves each of the five stages unchanged: nothing is printed, nothing
    is caught. *)
Theorem stages_propagate_launch_failure :
  forall (e : exn) (p q : Path) (domain : str) (keywords extra_args : list str)
         (no_wrap no_location fuzzy : bool),
    (popen_wrapper
       (_make_xgettext_args stringify_path p domain keywords no_wrap
          no_location extra_args) = inl e ->
     extract_translations stringify_path normalize_eols popen_wrapper
       p domain keywords no_wrap no_location extra_args = mkM (inl e) [])
    /\ (popen_wrapper
          (_make_msguniq_args stringify_path p no_wrap no_location extra_args)
        = inl e ->
        extract_unique_messages stringify_path normalize_eols popen_wrapper
          p no_wrap no_location extra_args = mkM (inl e) [])
    /\ (popen_wrapper
          (_make_msgmerge_args stringify_path p q no_wrap no_location
             extra_args) = inl e ->
        merge_new_and_existing_translations stringify_path normalize_eols
          popen_wrapper p q no_wrap no_location extra_args = mkM (inl e) [])
    /\ (popen_wrapper
          (_make_msgattrib_args stringify_path p no_wrap no_location
             extra_args) = inl e ->
        remove_obsolete_translations stringify_path normalize_eols
          popen_wrapper p no_wrap no_location extra_args = mkM (inl e) [])
    /\ (popen_wrapper (_make_msgfmt_args stringify_path p q fuzzy extra_args)
        = inl e ->
        compile_translations stringify_path normalize_eols popen_wrapper
          p q fuzzy extra_args = mkM (inl e) []).
Proof.
  intros. unfold extract_translations, extract_unique_messages,
    merge_new_and_existing_translations, remove_obsolete_translations,
    compile_translations. cbv zeta.
  repeat split; intro H; unfold bind; rewrite tool_output_all_cases, H;
    reflexivity.
Qed.

(** Every argument list starts with the name of its tool. *)
Lemma builders_head :
  forall (p q : Path) (domain : str) (keywords extra_args : list str)
         (no_wrap no_location fuzzy : bool),
    (exists rest,
        _make_xgettext_args stringify_path p domain keywords no_wrap
          no_location extra_args = lit "xgettext" :: rest)
    /\ (exists rest,
          _make_msguniq_args stringify_path p no_wrap no_location extra_args
          = lit "msguniq" :: rest)
    /\ (exists rest,
          _make_msgmerge_args stringify_path p q no_wrap no_location extra_args
          = lit "msgmerge" :: rest)
    /\ (exists rest,
          _make_msgattrib_args stringify_path p no_wrap no_location extra_args
          = lit "msgattrib" :: rest)
    /\ (exists rest,
          _make_msgfmt_args stringify_path p q fuzzy extra_args
          = lit "msgfmt" :: rest).
Proof.
  intros.
  unfold _make_xgettext_args, _make_msguniq_args, _make_msgmerge_args,
    _make_msgattrib_args, _make_msgfmt_args, append, extend.
  repeat split;
    destruct no_wrap, no_location, fuzzy, extra_args;
    cbn [truthy_list app]; eexists; reflexivity.
Qed.

(** X2. When the tool of a stage ends with a non-zero status and text on
    stderr, the stage raises a [RuntimeError] that names its own tool:
    [xgettext] for extraction, [msguniq] for deduplication, [msgmerge] for
    merging, [msgattrib] for cleaning and [msgfmt] for compiling.  The
    lookup [args[0]] never fails in a stage. *)
Theorem stages_failure_names_tool :
  forall (content errors : str) (status : Z) (p q : Path) (domain : str)
         (keywords extra_args : list str) (no_wrap no_location fuzzy : bool),
    errors <> [] -> status <> 0%Z ->
    let failure (A : Type) (tool : str) : M A :=
      mkM (inl (RuntimeError
                  (lit "failed to run gettext tool '" ++ tool
                   ++ lit "' (status=" ++ str_of_int status
                   ++ lit "): " ++ errors))) [] in
    (popen_wrapper
       (_make_xgettext_args stringify_path p domain keywords no_wrap
          no_location extra_args) = inr (content, errors, status) ->
     extract_translations stringify_path normalize_eols popen_wrapper
       p domain keywords no_wrap no_location extra_args
     = failure str (lit "xgettext"))
    /\ (popen_wrapper
          (_make_msguniq_args stringify_path p no_wrap no_location extra_args)
        = inr (content, errors, status) ->
        extract_unique_messages stringify_path normalize_eols popen_wrapper
          p no_wrap no_location extra_args
        = failure str (lit "msguniq"))
    /\ (popen_wrapper
          (_make_msgmerge_args stringify_path p q no_wrap no_location
             extra_args) = inr (content, errors, status) ->
        merge_new_and_existing_translations stringify_path normalize_eols
          popen_wrapper p q no_wrap no_location extra_args
        = failure str (lit "msgmerge"))
    /\ (popen_wrapper
          (_make_msgattrib_args stringify_path p no_wrap no_location
             extra_args) = inr (content, errors, status) ->
        remove_obsolete_translations stringify_path normalize_eols
          popen_wrapper p no_wrap no_location extra_args
        = failure unit (lit "msgattrib"))
    /\ (popen_wrapper (_make_msgfmt_args stringify_path p q fuzzy extra_args)
        = inr (content, errors, status) ->
        compile_translations stringify_path normalize_eols popen_wrapper
          p q fuzzy extra_args
        = failure unit (lit "msgfmt")).
Proof.
  intros content errors status p q domain keywords extra_args
    no_wrap no_location fuzzy Herr Hst failure.
  destruct (builders_head p q domain keywords extra_args no_wrap no_location
              fuzzy) as [[r1 E1] [[r2 E2] [[r3 E3] [[r4 E4] [r5 E5]]]]].
  apply Z.eqb_neq in Hst.
  unfold extract_translations, extract_unique_messages,
    merge_new_and_existing_translations, remove_obsolete_translations,
    compile_translations, failure, tool_failure_message. cbv zeta.
  destruct errors as [|c cs]; [congruence|].
  repeat split; intro H; unfold bind; rewrite tool_output_all_cases, H;
    cbv zeta; rewrite Hst.
  - rewrite E1. reflexivity.
  - rewrite E2. reflexivity.
  - rewrite E3. reflexivity.
  - rewrite E4. reflexivity.
  - rewrite E5. reflexivity.
Qed.

(** X3. When the tool of a stage gives no text on stderr, or ends with
    status zero, the stage does not raise.  The three stages that return
    text give the stdout, normalized when it is not empty; cleaning and
    compiling give [None] and drop the stdout.  The stderr text, when there
    is some, is the one message sent to [print_err]. *)
Theorem stages_non_fatal_result :
  forall (content errors : str) (status : Z) (p q : Path) (domain : str)
         (keywords extra_args : list str) (no_wrap no_location fuzzy : bool),
    errors = [] \/ status = 0%Z ->
    let out := if truthy content then normalize_eols content else content in
    let warned := if truthy errors then [errors] else [] in
    (popen_wrapper
       (_make_xgettext_args stringify_path p domain keywords no_wrap
          no_location extra_args) = inr (content, errors, status) ->
     extract_translations stringify_path normalize_eols popen_wrapper
       p domain keywords no_wrap no_location extra_args
     = mkM (inr out) warned)
    /\ (popen_wrapper
          (_make_msguniq_args stringify_path p no_wrap no_location extra_args)
        = inr (content, errors, status) ->
        extract_unique_messages stringify_path normalize_eols popen_wrapper
          p no_wrap no_location extra_args
        = mkM (inr out) warned)
    /\ (popen_wrapper
          (_make_msgmerge_args stringify_path p q no_wrap no_location
             extra_args) = inr (content, errors, status) ->
        merge_new_and_existing_translations stringify_path normalize_eols
          popen_wrapper p q no_wrap no_location extra_args
        = mkM (inr out) warned)
    /\ (popen_wrapper
          (_make_msgattrib_args stringify_path p no_wrap no_location
             extra_args) = inr (content, errors, status) ->
        remove_obsolete_translations stringify_path normalize_eols
          popen_wrapper p no_wrap no_location extra_args
        = mkM (inr tt) warned)
    /\ (popen_wrapper (_make_msgfmt_args stringify_path p q fuzzy extra_args)
        = inr (content, errors, status) ->
        compile_translations stringify_path normalize_eols popen_wrapper
          p q fuzzy extra_args
        = mkM (inr tt) warned).
Proof.
  intros content errors status p q domain keywords extra_args
    no_wrap no_location fuzzy Hok out warned.
  unfold extract_translations, extract_unique_messages,
    merge_new_and_existing_translations, remove_obsolete_translations,
    compile_translations, out, warned. cbv zeta.
  repeat split; intro H; unfold bind; rewrite tool_output_all_cases, H;
    cbv zeta;
    (destruct errors as [|c cs];
     [ cbn; reflexivity
     | destruct Hok as [Hok | ->]; [discriminate Hok | cbn; reflexivity] ]).
Qed.

(** X4. [get_gettext_tool_output] reads [args[0]] on the failure path only.
    For an empty argument list a run without stderr text, or with status
    zero, is classified as for any other list, and a run with stderr text
    and a non-zero status raises [IndexError] in place of the
    [RuntimeError]. *)
Theorem tool_output_empty_args :
  forall (content errors : str) (status : Z),
    popen_wrapper [] = inr (content, errors, status) ->
    let out := if truthy content then normalize_eols content else content in
    (errors = [] ->
     get_gettext_tool_output normalize_eols popen_wrapper [] = mkM (inr out) [])
    /\ (errors <> [] -> status = 0%Z ->
        get_gettext_tool_output normalize_eols popen_wrapper []
        = mkM (inr out) [errors])
    /\ (errors <> [] -> status <> 0%Z ->
        get_gettext_tool_output normalize_eols popen_wrapper []
        = mkM (inl IndexError) []).
Proof.
  intros content errors status H out. rewrite tool_output_all_cases, H.
  cbv zeta. fold out. destruct errors as [|c cs].
  - repeat split; congruence.
  - destruct (Z.eqb_spec status 0) as [Hs | Hs]; repeat split; congruence.
Qed.

Lemma validate_each_outcome :
  forall names : list str,
    (validate_each find_executable names = ret tt
     /\ forall n, In n names -> find_executable n <> None)
    \/ (exists name,
          In name names /\ find_executable name = None
          /\ validate_each find_executable names
             = raise unit (OSError (missing_executable_message name))).
Proof.
  induction names as [|n names IH]; cbn [validate_each].
  - left. split; [reflexivity | intros n []].
  - destruct (find_executable n) as [path|] eqn:E.
    + destruct IH as [[Hok Hall] | [name [Hin [Hnone Hraise]]]].
      * left. split; [exact Hok|].
        intros m [<- | Hm]; [congruence | now apply Hall].
      * right. exists name. repeat split; auto. right. exact Hin.
    + right. exists n. repeat split; auto. left. reflexivity.
Qed.

(** X5. The availability check returns without an exception if and only if
    each of the five executables resolves.  It prints nothing, and the only
    exception it raises is an [OSError] whose message names an executable
    of the list that does not resolve. *)
Theorem validate_tools_returns_iff_all_resolve :
  (outcome (validate_gettext_tools_exist find_executable) = inr tt
   <-> forall name, In name GETTEXT_TOOLS_EXECUTABLES ->
                    find_executable name <> None)
  /\ printed (validate_gettext_tools_exist find_executable) = []
  /\ (forall e : exn,
        outcome (validate_gettext_tools_exist find_executable) = inl e ->
        exists name,
          In name GETTEXT_TOOLS_EXECUTABLES
          /\ find_executable name = None
          /\ e = OSError
                   (lit "cannot find executable '" ++ name
                    ++ lit "': make sure you have GNU gettext tools 0.15 or newer installed")).
Proof.
  unfold validate_gettext_tools_exist.
  destruct (validate_each_outcome GETTEXT_TOOLS_EXECUTABLES)
    as [[Hok Hall] | [name [Hin [Hnone Hraise]]]].
  - rewrite Hok. repeat split; auto.
    intros e He. discriminate He.
  - rewrite Hraise. repeat split.
    + intro H. discriminate H.
    + intro H. exfalso. exact (H name Hin Hnone).
    + intros e He. exists name. repeat split; auto.
      cbn in He. injection He as <-. reflexivity.
Qed.

(** X6. After a check that returned, the executable that starts the
    argument list of each of the five builders resolves: no builder names
    a tool that the check does not cover. *)
Theorem builders_run_checked_tools :
  forall (p q : Path) (domain : str) (keywords extra_args : list str)
         (no_wrap no_location fuzzy : bool) (args : list str),
    validate_gettext_tools_exist find_executable = ret tt ->
    In args
      [ _make_xgettext_args stringify_path p domain keywords no_wrap
          no_location extra_args;
        _make_msguniq_args stringify_path p no_wrap no_location extra_args;
        _make_msgmerge_args stringify_path p q no_wrap no_location extra_args;
        _make_msgattrib_args stringify_path p no_wrap no_location extra_args;
        _make_msgfmt_args stringify_path p q fuzzy extra_args ] ->
    exists (tool : str) (rest : list str) (resolved : str),
      args = tool :: rest /\ find_executable tool = Some resolved.
Proof.
  intros p q domain keywords extra_args no_wrap no_location fuzzy args Hok Hin.
  assert (forall name, In name GETTEXT_TOOLS_EXECUTABLES ->
                       exists resolved, find_executable name = Some resolved)
    as Hall.
  { unfold validate_gettext_tools_exist in Hok.
    destruct (validate_each_outcome GETTEXT_TOOLS_EXECUTABLES)
      as [[_ Hall] | [name [_ [_ Hraise]]]].
    - intros name Hname. specialize (Hall name Hname).
      destruct (find_executable name) as [r|]; [exists r; reflexivity|congruence].
    - rewrite Hraise in Hok. discriminate Hok. }
  destruct (builders_head p q domain keywords extra_args no_wrap no_location
              fuzzy) as [[r1 E1] [[r2 E2] [[r3 E3] [[r4 E4] [r5 E5]]]]].
  unfold GETTEXT_TOOLS_EXECUTABLES in Hall.
  destruct Hin as [<- | [<- | [<- | [<- | [<- | []]]]]].
  - destruct (Hall (lit "xgettext")) as [r Hr]; [left; reflexivity|].
    exists (lit "xgettext"), r1, r. auto.
  - destruct (Hall (lit "msguniq")) as [r Hr]; [right; left; reflexivity|].
    exists (lit "msguniq"), r2, r. auto.
  - destruct (Hall (lit "msgmerge")) as [r Hr];
      [right; right; left; reflexivity|].
    exists (lit "msgmerge"), r3, r. auto.
  - destruct (Hall (lit "msgattrib")) as [r Hr];
      [right; right; right; left; reflexivity|].
    exists (lit "msgattrib"), r4, r. auto.
  - destruct (Hall (lit "msgfmt")) as [r Hr];
      [right; right; right; right; left; reflexivity|].
    exists (lit "msgfmt"), r5, r. auto.
Qed.

End Stages.

Lemma stages_propagate_launch_failure_witness :
  compile_translations (fun p : str => p) crlf_to_lf
    (fun _ => inl (LaunchError (lit "msgfmt")))
    (lit "out.mo") (lit "in.po") false []
  = mkM (inl (LaunchError (lit "msgfmt"))) [].
Proof.
  apply (proj2 (proj2 (proj2 (proj2
    (stages_propagate_launch_failure (fun p : str => p) crlf_to_lf
       (fun _ => inl (LaunchError (lit "msgfmt")))
       (LaunchError (lit "msgfmt")) (lit "out.mo") (lit "in.po")
       [] [] [] false false false))))).
  reflexivity.
Defined.

Lemma stages_failure_names_tool_witness :
  merge_new_and_existing_translations (fun p : str => p) crlf_to_lf
    (popen_const [] (lit "no such file") 1)
    (lit "de.po") (lit "messages.pot") true false []
  = mkM (inl (RuntimeError
                (lit "failed to run gettext tool 'msgmerge' (status=1): no such file")))
        [].
Proof.
  apply (proj1 (proj2 (proj2
    (@stages_failure_names_tool str (fun p : str => p) crlf_to_lf
       (popen_const [] (lit "no such file") 1)
       [] (lit "no such file") 1%Z (lit "de.po") (lit "messages.pot")
       [] [] [] true false false
       ltac:(discriminate) ltac:(discriminate))))).
  reflexivity.
Defined.

Lemma stages_non_fatal_result_witness :
  remove_obsolete_translations (fun p : str => p) crlf_to_lf
    (popen_const (lit "ignored") (lit "warning: fuzzy") 0)
    (lit "de.po") false false []
  = mkM (inr tt) [lit "warning: fuzzy"].
Proof.
  apply (proj1 (proj2 (proj2 (proj2
    (@stages_non_fatal_result str (fun p : str => p) crlf_to_lf
       (popen_const (lit "ignored") (lit "warning: fuzzy") 0)
       (lit "ignored") (lit "warning: fuzzy") 0%Z (lit "de.po") (lit "de.po")
       [] [] [] false false false (or_intror eq_refl)))))).
  reflexivity.
Defined.

Lemma tool_output_empty_args_witness :
  get_gettext_tool_output crlf_to_lf (popen_const [] (lit "error") 2) []
  = mkM (inl IndexError) [].
Proof.
  apply (proj2 (proj2
    (@tool_output_empty_args crlf_to_lf (popen_const [] (lit "error") 2)
       [] (lit "error") 2%Z eq_refl))); discriminate.
Defined.

Lemma validate_tools_returns_iff_all_resolve_witness :
  outcome (validate_gettext_tools_exist (find_among GETTEXT_TOOLS_EXECUTABLES))
  = inr tt.
Proof.
  apply (proj2 (proj1
    (validate_tools_returns_iff_all_resolve
       (find_among GETTEXT_TOOLS_EXECUTABLES)))).
  intros name Hin. unfold find_among.
  destruct (in_dec (list_eq_dec N.eq_dec) name GETTEXT_TOOLS_EXECUTABLES);
    [discriminate | contradiction].
Defined.

Lemma builders_run_checked_tools_witness :
  exists (tool : str) (rest : list str) (resolved : str),
    _make_msgfmt_args (fun p : str => p) (lit "out.mo") (lit "in.po") true []
    = tool :: rest
    /\ find_among GETTEXT_TOOLS_EXECUTABLES tool = Some resolved.
Proof.
  apply (@builders_run_checked_tools str (fun p : str => p)
           (find_among GETTEXT_TOOLS_EXECUTABLES)
           (lit "out.mo") (lit "in.po") [] [] [] false false true).
  - vm_compute. reflexivity.
  - right. right. right. right. left. reflexivity.
Defined.

(* ================================================================== *)
(** ** More on the stripped text *)

Lemma dropwhile_head :
  forall (A : Type) (pred : A -> bool) (l : list A),
    dropwhile pred l = []
    \/ exists x rest, dropwhile pred l = x :: rest /\ pred x = false.
Proof.
  intros A pred l. induction l as [|x xs IH]; [left; reflexivity|].
  cbn [dropwhile]. destruct (pred x) eqn:E; [exact IH|].
  right. exists x, xs. auto.
Qed.

Lemma truthy_len_false :
  forall l : str, truthy_int (len l) = false -> l = [].
Proof.
  intros [|c l] H; [reflexivity | discriminate H].
Qed.

Lemma splitlines_from_line :
  forall (h : str) (cur rest : str),
    Forall not_break h ->
    splitlines_from cur (h ++ rest) = splitlines_from (rev h ++ cur) rest.
Proof.
  induction h as [|c h IH]; intros cur rest Hh; [reflexivity|].
  inversion Hh as [|? ? Hc Hh']; subst.
  cbn [app]. rewrite (@splitlines_from_char cur c (h ++ rest) Hc).
  rewrite (IH (c :: cur) rest Hh'). cbn [rev]. now rewrite <- app_assoc.
Qed.

(** X7. The text that [strip_translations_header] returns is empty or
    starts with LF: its first line is never a non-empty line, so nothing of
    the header is left and the blank separator line starts the result. *)
Theorem strip_header_result_starts_blank :
  forall s : str,
    (strip_translations_header s = []
     \/ exists t, strip_translations_header s = LF :: t)
    /\ no_leading_block (strip_translations_header s) = true.
Proof.
  intro s.
  assert (strip_translations_header s = []
          \/ exists t, strip_translations_header s = LF :: t) as H.
  { unfold strip_translations_header.
    destruct (dropwhile_head (fun l => truthy_int (len l)) (splitlines s))
      as [-> | [l [rest [-> Hl]]]]; [left; reflexivity|].
    apply truthy_len_false in Hl. subst l.
    destruct rest as [|l2 rest]; [left; reflexivity|].
    right. eexists. reflexivity. }
  split; [exact H|].
  destruct H as [-> | [t ->]]; reflexivity.
Qed.

(** X8. [strip_translations_header] never returns a longer text than it
    was given, and returns a strictly shorter one whenever the text starts
    with a non-empty line. *)
Theorem strip_header_never_longer :
  forall s : str,
    List.length (strip_translations_header s) <= List.length s
    /\ (no_leading_block s = false ->
        List.length (strip_translations_header s) < List.length s).
Proof.
  intro s.
  pose proof (proj1 (join_splitlines_length s)) as Hs.
  pose proof (join_dropwhile_length [LF] (fun l => truthy_int (len l))
                (splitlines s)) as Hd.
  fold (strip_translations_header s) in Hd. split; [lia|].
  unfold no_leading_block, strip_translations_header.
  destruct (splitlines s) as [|l ls]; [discriminate|].
  intro Hl. apply negb_false_iff in Hl. cbn [dropwhile]. rewrite Hl.
  pose proof (join_dropwhile_length [LF] (fun l => truthy_int (len l)) ls).
  pose proof (join_tail_length [LF] l ls).
  destruct l as [|c l]; [discriminate Hl|]. cbn [List.length] in *. lia.
Qed.

Lemma strip_header_never_longer_witness :
  List.length (strip_translations_header catalog_with_header)
  < List.length catalog_with_header.
Proof.
  apply (proj2 (strip_header_never_longer catalog_with_header)).
  reflexivity.
Defined.

(** X9. A first line that is not empty is dropped with its terminator: the
    result is the result for the rest of the text.  This holds for a
    terminator of one boundary character other than CR, and for the pair
    CR LF. *)
Theorem strip_header_drops_first_line :
  forall (h s : str),
    h <> [] -> Forall not_break h ->
    (forall b : N,
        is_linebreak b = true -> b <> CR ->
        strip_translations_header (h ++ b :: s) = strip_translations_header s)
    /\ strip_translations_header (h ++ CR :: LF :: s)
       = strip_translations_header s.
Proof.
  intros h s Hne Hh.
  assert (forall rest : list str,
             dropwhile (fun l => truthy_int (len l))
               (rev (rev h ++ []) :: rest)
             = dropwhile (fun l => truthy_int (len l)) rest) as Hdrop.
  { intro rest. rewrite app_nil_r, rev_involutive. cbn [dropwhile].
    now rewrite (truthy_len_nonempty Hne). }
  unfold strip_translations_header, splitlines. split.
  - intros b Hb Hcr. rewrite (splitlines_from_line [] (b :: s) Hh).
    cbn [splitlines_from]. rewrite Hb.
    apply N.eqb_neq in Hcr. rewrite Hcr. now rewrite Hdrop.
  - rewrite (splitlines_from_line [] (CR :: LF :: s) Hh).
    cbn [splitlines_from]. change (is_linebreak CR) with true.
    change (CR =? CR)%N with true. change (LF =? LF)%N with true.
    cbv iota. now rewrite Hdrop.
Qed.

Lemma strip_header_drops_first_line_witness :
  strip_translations_header (lit "# header" ++ CR :: LF :: catalog_body_after_blank)
  = strip_translations_header catalog_body_after_blank.
Proof.
  apply (proj2 (@strip_header_drops_first_line (lit "# header")
                  catalog_body_after_blank ltac:(discriminate)
                  ltac:(repeat constructor))).
Defined.

(* ================================================================== *)
(** ** [strip], and the description of a command module *)

Lemma dropwhile_suffix :
  forall (A : Type) (pred : A -> bool) (l : list A),
    exists pre, l = pre ++ dropwhile pred l /\ Forall (fun x => pred x = true) pre.
Proof.
  intros A pred l. induction l as [|x xs [pre [E Hpre]]].
  - exists []. split; [reflexivity | constructor].
  - cbn [dropwhile]. destruct (pred x) eqn:Hx.
    + exists (x :: pre). split; [cbn; congruence | constructor; auto].
    + exists []. split; [reflexivity | constructor].
Qed.

Lemma dropwhile_nil_iff :
  forall (A : Type) (pred : A -> bool) (l : list A),
    dropwhile pred l = [] <-> Forall (fun x => pred x = true) l.
Proof.
  intros A pred l. split; [|apply dropwhile_all].
  induction l as [|x xs IH]; [constructor|].
  cbn [dropwhile]. destruct (pred x) eqn:Hx; [|discriminate].
  intro H. constructor; auto.
Qed.

(** [strip] gives the empty string exactly on a text of whitespace. *)
Lemma strip_nil_iff :
  forall s : str, strip s = [] <-> Forall (fun c => is_space c = true) s.
Proof.
  intro s. unfold strip, rstrip, lstrip.
  destruct (dropwhile_suffix is_space s) as [pre [E Hpre]].
  split.
  - intro H. apply (f_equal (@rev N)) in H. rewrite rev_involutive in H.
    cbn in H. apply dropwhile_nil_iff in H.
    apply Forall_rev in H. rewrite rev_involutive in H.
    rewrite E. apply Forall_app. split; assumption.
  - intro H. apply dropwhile_nil_iff in H. rewrite H. reflexivity.
Qed.

(** A stripped text that is not empty starts and ends with a character
    that is not whitespace. *)
Lemma strip_ends :
  forall s : str,
    strip s = []
    \/ exists c t,
         strip s = c :: t /\ is_space c = false
         /\ is_space (last (strip s) 0%N) = false.
Proof.
  intro s. unfold strip, rstrip.
  destruct (dropwhile_head is_space (rev (lstrip s)))
    as [-> | [x [r [E Hx]]]]; [left; reflexivity|].
  right. rewrite E.
  destruct (dropwhile_suffix is_space (rev (lstrip s))) as [pre [Es _]].
  rewrite E in Es. apply (f_equal (@rev N)) in Es.
  rewrite rev_involutive, rev_app_distr in Es.
  destruct (dropwhile_head is_space s) as [Hl | [c [t [Hl Hc]]]];
    fold (lstrip s) in Hl; rewrite Hl in Es.
  - destruct (rev (x :: r)) eqn:Er; [|discriminate Es].
    apply (f_equal (@List.length N)) in Er.
    rewrite length_rev in Er. discriminate Er.
  - destruct (rev (x :: r)) as [|c' t'] eqn:Er.
    + apply (f_equal (@List.length N)) in Er.
      rewrite length_rev in Er. discriminate Er.
    + cbn in Es. injection Es as -> _. exists c', t'.
      split; [reflexivity|]. split; [exact Hc|].
      rewrite <- Er. cbn [rev]. now rewrite last_last.
Qed.

(** X10. [_description] gives [None] exactly for a module without docstring
    or with an empty one.  The description it gives otherwise is the
    docstring without the whitespace around it: it is empty exactly when
    the docstring holds whitespace only, and else starts and ends with a
    character that is not whitespace. *)
Theorem description_is_stripped_docstring :
  forall m : module,
    (_description m = None <-> __doc__ m = None \/ __doc__ m = Some [])
    /\ (forall d : str,
          _description m = Some d ->
          exists doc,
            __doc__ m = Some doc /\ doc <> [] /\ d = strip doc
            /\ (d = [] <-> Forall (fun c => is_space c = true) doc)
            /\ (d = []
                \/ exists c t,
                     d = c :: t /\ is_space c = false
                     /\ is_space (last d 0%N) = false)).
Proof.
  intro m. unfold _description.
  destruct (__doc__ m) as [[|c doc]|]; cbn [truthy].
  - split; [split; auto|]. intros d H. discriminate H.
  - split.
    + split; [discriminate|]. intros [H | H]; discriminate H.
    + intros d H. injection H as <-. exists (c :: doc).
      split; [reflexivity|]. split; [discriminate|]. split; [reflexivity|].
      split; [apply strip_nil_iff | apply strip_ends].
  - split; [split; auto|]. intros d H. discriminate H.
Qed.

Lemma description_is_stripped_docstring_witness :
  exists doc,
    __doc__ (mkModule None (Some (lit "  List commands. "))) = Some doc
    /\ doc <> [] /\ lit "List commands." = strip doc
    /\ (lit "List commands." = []
        <-> Forall (fun c => is_space c = true) doc)
    /\ (lit "List commands." = []
        \/ exists c t,
             lit "List commands." = c :: t /\ is_space c = false
             /\ is_space (last (lit "List commands.") 0%N) = false).
Proof.
  apply (proj2 (description_is_stripped_docstring
                  (mkModule None (Some (lit "  List commands. "))))).
  reflexivity.
Defined.

(** X11. [print_module_help] sends one text to [print_out] and nothing to
    [print_err].  The text ends with [No description.] when the module has
    no docstring or one of whitespace only, and with [Description:] and the
    stripped docstring otherwise.  It starts with [Usage:], the stripped
    usage and an empty line exactly when [__usage__] is a non-empty
    string. *)
Theorem module_help_text :
  forall m : module,
    let usage_part :=
      match __usage__ m with
      | Some (c :: u) => [lit "Usage:"; strip (c :: u); lit ""]
      | _ => []
      end in
    ((forall doc, __doc__ m = Some doc ->
                  Forall (fun c => is_space c = true) doc) ->
     print_module_help m
     = [Out (join [LF] (usage_part ++ [lit "No description."]))])
    /\ (forall doc,
          __doc__ m = Some doc ->
          ~ Forall (fun c => is_space c = true) doc ->
          strip doc <> []
          /\ print_module_help m
             = [Out (join [LF]
                       (usage_part ++ [lit "Description:"; strip doc]))]).
Proof.
  intros m usage_part. unfold print_module_help, module_help_messages.
  cbv zeta. cbn [app].
  assert (match __usage__ m with
          | Some u => if truthy u then [lit "Usage:"; strip u; lit ""] else []
          | None => []
          end = usage_part) as ->.
  { unfold usage_part. destruct (__usage__ m) as [[|c u]|]; reflexivity. }
  unfold _description. split.
  - intro Hblank. destruct (__doc__ m) as [doc|]; [|reflexivity].
    specialize (Hblank doc eq_refl). apply strip_nil_iff in Hblank.
    destruct doc as [|c doc]; [reflexivity|].
    cbn [truthy]. rewrite Hblank. reflexivity.
  - intros doc Hdoc Hnot. rewrite Hdoc.
    assert (strip doc <> []) as Hne
      by (intro H; apply Hnot; now apply strip_nil_iff).
    split; [exact Hne|].
    destruct doc as [|c doc]; [exfalso; apply Hnot; constructor|].
    cbn [truthy]. destruct (strip (c :: doc)); [congruence | reflexivity].
Qed.

Lemma module_help_text_witness :
  print_module_help (mkModule (Some (lit " help [<command>] ")) (Some (lit "   ")))
  = [Out (join [LF]
            [lit "Usage:"; lit "help [<command>]"; lit "";
             lit "No description."])].
Proof.
  apply (proj1 (module_help_text
                  (mkModule (Some (lit " help [<command>] "))
                     (Some (lit "   "))))).
  intros doc H. injection H as <-. repeat constructor.
Defined.

(* ================================================================== *)
(** ** The order on names and [sorted] *)

Lemma str_le_total :
  forall a b : str, str_le a b = false -> str_le b a = true.
Proof.
  induction a as [|x a IH]; intros [|y b] H; cbn in *; try congruence.
  destruct (N.ltb_spec x y) as [Hxy | Hxy]; [discriminate|].
  destruct (N.eqb_spec x y) as [-> | Hne].
  - rewrite N.ltb_irrefl, N.eqb_refl. now apply IH.
  - assert (y < x)%N as Hlt by lia.
    apply N.ltb_lt in Hlt. now rewrite Hlt.
Qed.

Lemma str_le_trans :
  forall a b c : str,
    str_le a b = true -> str_le b c = true -> str_le a c = true.
Proof.
  induction a as [|x a IH]; intros [|y b] [|z c] Hab Hbc; cbn in *;
    try congruence.
  destruct (N.ltb_spec x y) as [Hxy | Hxy];
    destruct (N.ltb_spec y z) as [Hyz | Hyz];
    destruct (N.ltb_spec x z) as [Hxz | Hxz]; try reflexivity; try lia.
  - destruct (N.eqb_spec y z) as [-> | ?]; [lia | discriminate].
  - destruct (N.eqb_spec x y) as [-> | ?]; [lia | discriminate].
  - destruct (N.eqb_spec x y) as [-> | ?]; [|discriminate].
    destruct (N.eqb_spec y z) as [-> | ?]; [|discriminate].
    now apply IH with b.
Qed.

Lemma str_le_antisym :
  forall a b : str, str_le a b = true -> str_le b a = true -> a = b.
Proof.
  induction a as [|x a IH]; intros [|y b] Hab Hba; cbn in *;
    try congruence.
  destruct (N.ltb_spec x y) as [Hxy | Hxy];
    destruct (N.ltb_spec y x) as [Hyx | Hyx]; try lia.
  - destruct (N.eqb_spec y x) as [-> | ?]; [lia | discriminate].
  - destruct (N.eqb_spec x y) as [-> | ?]; [lia | discriminate].
  - destruct (N.eqb_spec x y) as [-> | ?]; [|discriminate].
    rewrite N.eqb_refl in Hba. f_equal. now apply IH.
Qed.

Lemma insert_sorted_perm :
  forall (x : str) (l : list str), Permutation (x :: l) (insert_sorted x l).
Proof.
  intros x l. induction l as [|y l IH]; cbn [insert_sorted].
  - apply Permutation_refl.
  - destruct (str_le x y); [apply Permutation_refl|].
    eapply perm_trans; [apply perm_swap|]. now apply perm_skip.
Qed.

Lemma sorted_perm :
  forall l : list str, Permutation l (sorted l).
Proof.
  induction l as [|x l IH]; [constructor|]. cbn [sorted fold_right].
  eapply perm_trans; [apply perm_skip, IH | apply insert_sorted_perm].
Qed.

Lemma insert_sorted_ascending :
  forall (x : str) (l : list str),
    StronglySorted ascending l -> StronglySorted ascending (insert_sorted x l).
Proof.
  intros x l H. induction H as [|y l Hl IH Hy]; cbn [insert_sorted].
  - repeat constructor.
  - destruct (str_le x y) eqn:E.
    + constructor; [constructor; assumption|].
      constructor; [exact E|].
      eapply Forall_impl; [|exact Hy].
      intros z Hz. unfold ascending in *. now apply str_le_trans with y.
    + constructor; [exact IH|].
      apply (Permutation_Forall (insert_sorted_perm x l)).
      constructor; [|exact Hy]. now apply str_le_total.
Qed.

Lemma sorted_ascending :
  forall l : list str, StronglySorted ascending (sorted l).
Proof.
  induction l as [|x l IH]; [constructor|].
  now apply insert_sorted_ascending.
Qed.

Lemma ascending_unique :
  forall l1 l2 : list str,
    Permutation l1 l2 ->
    StronglySorted ascending l1 -> StronglySorted ascending l2 -> l1 = l2.
Proof.
  induction l1 as [|x l1 IH]; intros l2 Hp H1 H2.
  - apply Permutation_nil in Hp. now subst.
  - destruct l2 as [|y l2];
      [apply Permutation_sym, Permutation_nil in Hp; discriminate|].
    inversion H1 as [|? ? H1' Hx]; subst.
    inversion H2 as [|? ? H2' Hy]; subst.
    assert (x = y) as ->.
    { assert (In x (y :: l2)) as Hin
        by (apply (Permutation_in _ Hp); left; reflexivity).
      assert (In y (x :: l1)) as Hin'
        by (apply (Permutation_in _ (Permutation_sym Hp)); left; reflexivity).
      destruct Hin as [-> | Hin]; [reflexivity|].
      destruct Hin' as [-> | Hin']; [reflexivity|].
      rewrite Forall_forall in Hx, Hy.
      apply str_le_antisym; [apply Hx | apply Hy]; assumption. }
    f_equal. apply IH; auto. now apply Permutation_cons_inv in Hp.
Qed.

(* ================================================================== *)
(** ** The list of commands and [execute] *)

Lemma str_eqb_true_iff : forall a b : str, str_eqb a b = true <-> a = b.
Proof.
  intros a b. unfold str_eqb.
  destruct (list_eq_dec N.eq_dec a b); split; congruence.
Qed.

Lemma lookup_of_key :
  forall (V : Type) (name : str) (d : dict V),
    In name (keys d) -> exists v, lookup name d = Some v.
Proof.
  intros V name d. induction d as [|[k v] d IH]; intros Hin; [destruct Hin|].
  cbn [lookup]. destruct (str_eqb name k) eqn:E; [exists v; reflexivity|].
  destruct Hin as [Hk | Hin]; [|now apply IH].
  cbn in Hk. subst k.
  assert (str_eqb name name = true) by now apply str_eqb_true_iff.
  congruence.
Qed.

Lemma lookup_not_key :
  forall (V : Type) (name : str) (d : dict V),
    ~ In name (keys d) -> lookup name d = None.
Proof.
  intros V name d. induction d as [|[k v] d IH]; intros Hn; [reflexivity|].
  cbn [lookup]. destruct (str_eqb name k) eqn:E.
  - apply str_eqb_true_iff in E. subst k. exfalso. apply Hn. left. reflexivity.
  - apply IH. intro H. apply Hn. right. exact H.
Qed.

(** In a [dict] (its keys are distinct) the value of a key does not depend
    on the order of insertion. *)
Lemma lookup_perm :
  forall (V : Type) (d1 d2 : dict V),
    Permutation d1 d2 -> NoDup (keys d1) ->
    forall name, lookup name d1 = lookup name d2.
Proof.
  intros V d1 d2 Hp. induction Hp as [| [k v] d d' Hp IH
                                     | [k1 v1] [k2 v2] d
                                     | d d' d'' Hp1 IH1 Hp2 IH2];
    intros Hnd name.
  - reflexivity.
  - cbn [lookup]. inversion Hnd; subst. rewrite IH by assumption. reflexivity.
  - cbn [lookup]. destruct (str_eqb name k1) eqn:E1;
      destruct (str_eqb name k2) eqn:E2; try reflexivity.
    apply str_eqb_true_iff in E1, E2. subst.
    inversion Hnd as [|? ? Hnot _]; subst. exfalso. apply Hnot. left. reflexivity.
  - rewrite IH1 by assumption. apply IH2.
    unfold keys. apply (Permutation_NoDup (Permutation_map fst Hp1)). exact Hnd.
Qed.

Lemma list_commands_fold :
  forall (commands : dict module) (names : list str) (init : list str),
    fold_left
      (fun messages name =>
         match lookup name commands with
         | Some m => messages ++ [lit "    - " ++ command_message name m]
         | None => messages
         end)
      names init
    = init
      ++ flat_map
           (fun name =>
              match lookup name commands with
              | Some m => [lit "    - " ++ command_message name m]
              | None => []
              end)
           names.
Proof.
  intros commands names. induction names as [|n names IH]; intro init.
  - cbn. now rewrite app_nil_r.
  - cbn [fold_left flat_map]. rewrite IH.
    destruct (lookup n commands); [now rewrite <- app_assoc | reflexivity].
Qed.

Lemma list_commands_messages_eq :
  forall commands : dict module,
    list_commands_messages commands
    = [lit "Available commands:"; lit ""]
      ++ flat_map
           (fun name =>
              match lookup name commands with
              | Some m => [lit "    - " ++ command_message name m]
              | None => []
              end)
           (sorted (keys commands)).
Proof.
  intro commands. unfold list_commands_messages. cbv zeta.
  apply list_commands_fold.
Qed.

Lemma split_from_no_sep :
  forall (sep : N) (s cur : str),
    Forall (fun c => c <> sep) cur ->
    Forall (Forall (fun c => c <> sep)) (split_from cur sep s).
Proof.
  intros sep s. induction s as [|c s IH]; intros cur Hcur; cbn [split_from].
  - constructor; [now apply Forall_rev | constructor].
  - destruct (N.eqb_spec c sep) as [-> | Hne].
    + constructor; [now apply Forall_rev | apply IH; constructor].
    + apply IH. constructor; assumption.
Qed.

Lemma first_piece_no_sep :
  forall (sep : N) (s : str), ~ In sep (hd [] (split sep s)).
Proof.
  intros sep s Hin. unfold split in Hin.
  pose proof (@split_from_no_sep sep s [] (Forall_nil _)) as H.
  destruct (split_from [] sep s) as [|p ps]; [exact Hin|].
  inversion H as [|? ? Hp _]; subst. cbn in Hin.
  rewrite Forall_forall in Hp. exact (Hp sep Hin eq_refl).
Qed.

Lemma command_line_no_LF :
  forall (name : str) (m : module),
    ~ In LF name -> ~ In LF (lit "    - " ++ command_message name m).
Proof.
  intros name m Hname Hin. apply in_app_or in Hin.
  destruct Hin as [Hin | Hin].
  - cbn in Hin. repeat (destruct Hin as [Hin | Hin]; [discriminate Hin|]).
    exact Hin.
  - unfold command_message in Hin.
    destruct (_description m) as [d|]; [|contradiction].
    destruct (truthy d); [|contradiction].
    apply in_app_or in Hin. destruct Hin as [Hin | Hin]; [contradiction|].
    apply in_app_or in Hin. destruct Hin as [Hin | Hin].
    + cbn in Hin. repeat (destruct Hin as [Hin | Hin]; [discriminate Hin|]).
      exact Hin.
    + apply in_app_or in Hin. destruct Hin as [Hin | Hin].
      * exact (first_piece_no_sep LF d Hin).
      * cbn in Hin. repeat (destruct Hin as [Hin | Hin]; [discriminate Hin|]).
        exact Hin.
Qed.

Lemma count_LF_join :
  forall parts : list str,
    Forall (fun p => ~ In LF p) parts ->
    count_occ N.eq_dec (join [LF] parts) LF = pred (List.length parts).
Proof.
  intros parts H. induction H as [|p ps Hp Hps IH]; [reflexivity|].
  destruct ps as [|q qs].
  - cbn [join List.length pred]. now apply count_occ_not_In.
  - change (join [LF] (p :: q :: qs)) with (p ++ [LF] ++ join [LF] (q :: qs)).
    rewrite !count_occ_app, IH.
    rewrite (proj1 (count_occ_not_In N.eq_dec p LF) Hp). reflexivity.
Qed.

(** The lines of the list, for names that are keys of [commands]. *)
Lemma command_entries :
  forall (commands : dict module) (names : list str),
    (forall n, In n names -> In n (keys commands)) ->
    exists entries : list (str * module),
      map fst entries = names
      /\ (forall name m, In (name, m) entries -> lookup name commands = Some m)
      /\ flat_map
           (fun name =>
              match lookup name commands with
              | Some m => [lit "    - " ++ command_message name m]
              | None => []
              end)
           names
         = map (fun e => lit "    - " ++ command_message (fst e) (snd e))
             entries.
Proof.
  intros commands names. induction names as [|n names IH]; intro Hkeys.
  - exists []. repeat split. intros name m [].
  - destruct IH as [entries [Hfst [Hfound Hlines]]];
      [intros k Hk; apply Hkeys; right; exact Hk|].
    destruct (@lookup_of_key module n commands) as [m Hm];
      [apply Hkeys; left; reflexivity|].
    exists ((n, m) :: entries). split; [cbn; congruence|]. split.
    + intros name m' [H | H]; [injection H as <- <-; exact Hm | now apply Hfound].
    + cbn [flat_map map fst snd]. rewrite Hm, Hlines. reflexivity.
Qed.

(** X12. [_list_commands] prints the two heading lines and then one line for
    each command, the names in ascending order: each line is [    - ]
    followed by the text of the command, for the module that [commands]
    holds under that name. *)
Theorem list_commands_lines_ascending :
  forall commands : dict module,
    exists entries : list (str * module),
      Permutation (map fst entries) (keys commands)
      /\ StronglySorted ascending (map fst entries)
      /\ (forall name m, In (name, m) entries -> lookup name commands = Some m)
      /\ _list_commands commands
         = [Out (join [LF]
                   ([lit "Available commands:"; lit ""]
                    ++ map (fun e => lit "    - "
                                     ++ command_message (fst e) (snd e))
                         entries))].
Proof.
  intro commands.
  destruct (@command_entries commands (sorted (keys commands)))
    as [entries [Hfst [Hfound Hlines]]].
  { intros n Hn.
    apply (Permutation_in _ (Permutation_sym (sorted_perm (keys commands)))).
    exact Hn. }
  exists entries. rewrite Hfst. repeat split.
  - apply Permutation_sym, sorted_perm.
  - apply sorted_ascending.
  - exact Hfound.
  - unfold _list_commands. now rewrite list_commands_messages_eq, Hlines.
Qed.

(** X13. When no name holds a line feed, the text that [_list_commands]
    prints has one line for each command after its two heading lines,
    whatever the docstrings are: of a description only the first line is
    shown. *)
Theorem list_commands_one_line_each :
  forall commands : dict module,
    (forall name, In name (keys commands) -> ~ In LF name) ->
    exists text,
      _list_commands commands = [Out text]
      /\ count_occ N.eq_dec text LF = S (List.length commands).
Proof.
  intros commands Hnames.
  destruct (@command_entries commands (sorted (keys commands)))
    as [entries [Hfst [Hfound Hlines]]].
  { intros n Hn.
    apply (Permutation_in _ (Permutation_sym (sorted_perm (keys commands)))).
    exact Hn. }
  eexists. split; [reflexivity|].
  rewrite list_commands_messages_eq, Hlines, count_LF_join.
  - cbn [app List.length pred]. rewrite length_map.
    rewrite <- (length_map fst entries), Hfst.
    rewrite <- (Permutation_length (sorted_perm (keys commands))).
    unfold keys. now rewrite length_map.
  - constructor; [cbn; intros H;
                  repeat (destruct H as [H | H]; [discriminate H|]); exact H|].
    constructor; [intros []|].
    apply Forall_forall. intros line Hline. apply in_map_iff in Hline.
    destruct Hline as [[name m] [<- Hin]]. apply command_line_no_LF.
    apply Hnames.
    apply (Permutation_in _ (Permutation_sym (sorted_perm (keys commands)))).
    rewrite <- Hfst. apply in_map_iff. exists (name, m). auto.
Qed.

(** X14. What [execute] prints does not depend on the order in which the
    commands were put into the [dict]. *)
Theorem execute_order_independent :
  forall (commands1 commands2 : dict module) (args : list str),
    NoDup (keys commands1) ->
    Permutation commands1 commands2 ->
    _list_commands commands1 = _list_commands commands2
    /\ execute commands1 args = execute commands2 args.
Proof.
  intros commands1 commands2 args Hnd Hp.
  assert (_list_commands commands1 = _list_commands commands2) as Hlist.
  { unfold _list_commands. rewrite !list_commands_messages_eq.
    assert (sorted (keys commands1) = sorted (keys commands2)) as ->.
    { apply ascending_unique; try apply sorted_ascending.
      eapply perm_trans; [apply Permutation_sym, sorted_perm|].
      eapply perm_trans; [|apply sorted_perm].
      unfold keys. now apply Permutation_map. }
    do 4 f_equal. apply flat_map_ext. intro name.
    now rewrite (lookup_perm Hp Hnd name). }
  split; [exact Hlist|].
  unfold execute. destruct args as [|command rest]; [exact Hlist|].
  rewrite (lookup_perm Hp Hnd command), Hlist. reflexivity.
Qed.

(** X15. [execute] always sends one text to [print_out].  It sends a text
    to [print_err] before it, [Unknown command '<name>'.], exactly when
    there is a first argument that is not the name of a command; the text
    on [print_out] is then the list of commands.  Without argument the
    list is printed, and for the name of a command the help of its module.
    Arguments after the first are not read. *)
Theorem execute_outputs :
  forall (commands : dict module) (args : list str),
    match args with
    | [] => execute commands args = _list_commands commands
    | command :: _ =>
        (In command (keys commands) ->
         exists m, lookup command commands = Some m
                   /\ execute commands args = print_module_help m)
        /\ (~ In command (keys commands) ->
            execute commands args
            = Err (lit "Unknown command '" ++ command ++ lit "'.")
              :: _list_commands commands)
    end.
Proof.
  intros commands [|command rest]; [reflexivity|]. cbn [execute]. split.
  - intro Hin. destruct (lookup_of_key command commands Hin) as [m Hm].
    exists m. rewrite Hm. auto.
  - intro Hn. now rewrite (lookup_not_key command commands Hn).
Qed.

Ltac no_such_element H :=
  cbn in H; repeat (destruct H as [H | H]; [discriminate H|]); exact H.

Lemma list_commands_one_line_each_witness :
  exists text,
    _list_commands sample_commands = [Out text]
    /\ count_occ N.eq_dec text LF = 4.
Proof.
  apply (list_commands_one_line_each sample_commands).
  intros name Hin HLF. cbn in Hin.
  repeat (destruct Hin as [<- | Hin]; [no_such_element HLF|]).
  exact Hin.
Defined.

Lemma execute_order_independent_witness :
  execute sample_commands [] = execute (rev sample_commands) [].
Proof.
  apply (proj2 (@execute_order_independent sample_commands
                  (rev sample_commands) [] ltac:(repeat constructor;
                                                 intro H; no_such_element H)
                  (Permutation_rev sample_commands))).
Defined.

Lemma execute_outputs_witness :
  execute sample_commands [lit "nope"; lit "extract"]
  = Err (lit "Unknown command 'nope'.") :: _list_commands sample_commands.
Proof.
  apply (proj2 (execute_outputs sample_commands [lit "nope"; lit "extract"])).
  intro H. no_such_element H.
Defined.

Lemma split_from_first_piece :
  forall (sep : N) (s cur : str),
    exists rest, hd [] (split_from cur sep s) = rev cur ++ rest.
Proof.
  intros sep s. induction s as [|c s IH]; intro cur; cbn [split_from].
  - exists []. cbn. now rewrite app_nil_r.
  - destruct (c =? sep)%N.
    + exists []. cbn. now rewrite app_nil_r.
    + destruct (IH (c :: cur)) as [rest E]. exists (c :: rest).
      rewrite E. cbn [rev]. now rewrite <- app_assoc.
Qed.

(** X16. In the list of commands a module without docstring, or with a
    docstring of whitespace only, is shown by its name alone.  Every other
    module is shown as [<name> (<first line>)], where the first line of
    the stripped docstring is never empty, holds no line feed and starts
    with a character that is not whitespace. *)
Theorem command_message_cases :
  forall (name : str) (m : module),
    ((forall doc, __doc__ m = Some doc ->
                  Forall (fun c => is_space c = true) doc) ->
     command_message name m = name)
    /\ (forall doc,
          __doc__ m = Some doc ->
          ~ Forall (fun c => is_space c = true) doc ->
          exists (c : N) (t : str),
            is_space c = false /\ ~ In LF (c :: t)
            /\ hd [] (split LF (strip doc)) = c :: t
            /\ command_message name m
               = name ++ lit " (" ++ (c :: t) ++ lit ")").
Proof.
  intros name m. unfold command_message, _description. split.
  - intro Hblank. destruct (__doc__ m) as [doc|]; [|reflexivity].
    specialize (Hblank doc eq_refl). apply strip_nil_iff in Hblank.
    destruct doc as [|c doc]; [reflexivity|].
    cbn [truthy]. rewrite Hblank. reflexivity.
  - intros doc Hdoc Hnot. rewrite Hdoc.
    destruct doc as [|c0 doc]; [exfalso; apply Hnot; constructor|].
    cbn [truthy].
    destruct (strip_ends (c0 :: doc)) as [Hnil | [c [t [E [Hc _]]]]].
    { exfalso. apply Hnot. now apply strip_nil_iff. }
    rewrite E. cbn [truthy].
    pose proof (first_piece_no_sep LF (c :: t)) as Hno.
    assert (exists rest, hd [] (split LF (c :: t)) = c :: rest) as [rest Er].
    { unfold split. cbn [split_from].
      destruct (N.eqb_spec c LF) as [-> | _]; [discriminate Hc|].
      destruct (split_from_first_piece LF t [c]) as [rest Er].
      exists rest. exact Er. }
    rewrite Er in Hno |- *. exists c, rest. auto.
Qed.

Lemma command_message_cases_witness :
  command_message (lit "compile") (mkModule None (Some (lit "   ")))
  = lit "compile".
Proof.
  apply (proj1 (command_message_cases (lit "compile")
                  (mkModule None (Some (lit "   "))))).
  intros doc H. injection H as <-. repeat constructor.
Defined.
